(** * The GitHub client pool of shhgit's session (core/session.go)

    A shallow embedding of [InitGitHubClients], [GetClient] and [FreeClient]
    and the properties of the pool they maintain.

    Conventions of the embedding.
    - Go's [int] is a 64-bit two's complement integer: [wrap64].
    - An instant ([time.Time]) is an integer number of nanoseconds on one
      time line; a [time.Duration] is a number of nanoseconds.
    - A [*GitHubClientWrapper] is an address: an index into the list of the
      wrappers allocated so far ([heap]).  Channels carry addresses.
    - A buffered channel is its capacity and the FIFO list of the elements it
      buffers; a [nil] channel is [None].
    - The code runs in a small state monad over the session whose results
      tell apart returning, blocking forever on a channel, a run-time panic
      and [os.Exit].
    - What the code does to the outside world (log calls, the validation
      request, sleeping) is appended to the session's [trace]. *)

From Stdlib Require Import ZArith String Ascii List Lia Permutation.
From stdpp Require Import base list strings relations gmap.

Local Open Scope Z_scope.

(** ** Machine integers and time *)

Definition wrap64 (z : Z) : Z := (z + 2 ^ 63) mod 2 ^ 64 - 2 ^ 63.

Definition Time := Z.
Definition Duration := Z.

Definition Nanosecond : Duration := 1.
Definition Millisecond : Duration := 1000000 * Nanosecond.
Definition Second : Duration := 1000 * Millisecond.

Definition minDuration : Duration := - 2 ^ 63.
Definition maxDuration : Duration := 2 ^ 63 - 1.

(** [t.Add(d)] *)
Definition Time_Add (t : Time) (d : Duration) : Time := t + d.

(** [t.Sub(u)]: the difference, saturated to the range of a Duration. *)
Definition Time_Sub (t u : Time) : Duration :=
  Z.max minDuration (Z.min maxDuration (t - u)).

(** [t.After(u)] *)
Definition Time_After (t u : Time) : bool := u <? t.

(** ** Strings *)

(** [s[:n]]: the first [n] bytes, a run-time panic when [n > len(s)]. *)
Definition slice_to (s : string) (n : nat) : option string :=
  if (n <=? String.length s)%nat then Some (substring 0 n s) else None.

(** ** Errors of the validation request *)

(** [client.Users.Get] returns an [error]; the code tells a
    [*github.ErrorResponse] (the remote service answered with an error
    status) from every other error (transport failures, rate limit errors
    and so on). *)
Inductive error :=
| ErrorResponse (msg : string)
| OtherError (msg : string).

(** ** The wrapper and the channels *)

(** The client is represented by the access token that authenticates it. *)
Record GitHubClientWrapper := {
  Client : string;
  Token : string;
  RateLimitedUntil : Time
}.

Abbreviation ptr := nat.

Record chan := { cap : Z; buf : list ptr }.

(** ** Effects *)

Inductive level := DEBUG | WARN | FATAL.

Inductive arg :=
| AStr (s : string)
| AInt (n : Z)
| ADur (d : Duration)
| AErr (e : error).

(** Modelled from the spec: the [Logger] (its source is not part of
    core/session.go).  A call [s.Log.Debug/Warn/Fatal(format, args...)] is
    recorded as its level, its format string and its evaluated arguments;
    [Fatal] emits its line and terminates the process. *)
Record logline := { lvl : level; fmt : string; args : list arg }.

Inductive event :=
| EvLog (l : logline)
| EvUsersGet (token : string)
| EvSleep (d : Duration).

(** ** The session *)

Record Session := {
  Local : string;                      (* *s.Options.Local *)
  Threads : Z;                         (* *s.Options.Threads *)
  GitHubAccessTokens : list string;    (* s.Config.GitHubAccessTokens *)
  Clients : option chan;
  ExhaustedClients : option chan;
  heap : list GitHubClientWrapper;
  trace : list event;
  ticks : nat                          (* readings of the clock taken so far *)
}.

Definition set_Clients (c : option chan) (s : Session) : Session :=
  {| Local := Local s; Threads := Threads s;
     GitHubAccessTokens := GitHubAccessTokens s;
     Clients := c; ExhaustedClients := ExhaustedClients s;
     heap := heap s; trace := trace s; ticks := ticks s |}.

Definition set_ExhaustedClients (c : option chan) (s : Session) : Session :=
  {| Local := Local s; Threads := Threads s;
     GitHubAccessTokens := GitHubAccessTokens s;
     Clients := Clients s; ExhaustedClients := c;
     heap := heap s; trace := trace s; ticks := ticks s |}.

Definition set_heap (h : list GitHubClientWrapper) (s : Session) : Session :=
  {| Local := Local s; Threads := Threads s;
     GitHubAccessTokens := GitHubAccessTokens s;
     Clients := Clients s; ExhaustedClients := ExhaustedClients s;
     heap := h; trace := trace s; ticks := ticks s |}.

Definition emit (e : event) (s : Session) : Session :=
  {| Local := Local s; Threads := Threads s;
     GitHubAccessTokens := GitHubAccessTokens s;
     Clients := Clients s; ExhaustedClients := ExhaustedClients s;
     heap := heap s; trace := trace s ++ [e]; ticks := ticks s |}.

Definition tick (s : Session) : Session :=
  {| Local := Local s; Threads := Threads s;
     GitHubAccessTokens := GitHubAccessTokens s;
     Clients := Clients s; ExhaustedClients := ExhaustedClients s;
     heap := heap s; trace := trace s; ticks := S (ticks s) |}.

(** ** The monad *)

Inductive result (A : Type) :=
| Ret (a : A) (s : Session)   (* the call returns *)
| Block (s : Session)         (* the goroutine is parked on a channel that cannot proceed *)
| Panic (s : Session)         (* run-time panic *)
| Exit (s : Session).         (* os.Exit *)
Arguments Ret {A} a s.
Arguments Block {A} s.
Arguments Panic {A} s.
Arguments Exit {A} s.

Definition M (A : Type) : Type := Session -> result A.

Definition ret {A} (a : A) : M A := fun s => Ret a s.

Definition bind {A B} (m : M A) (k : A -> M B) : M B :=
  fun s =>
    match m s with
    | Ret a s' => k a s'
    | Block s' => Block s'
    | Panic s' => Panic s'
    | Exit s' => Exit s'
    end.

Declare Scope go_scope.
Delimit Scope go_scope with go.
Notation "x <- m ;; k" := (bind m (fun x => k))
  (at level 100, m at next level, right associativity) : go_scope.
Notation "m ;;; k" := (bind m (fun _ => k))
  (at level 100, right associativity) : go_scope.
Local Open Scope go_scope.

Definition gets {A} (f : Session -> A) : M A := fun s => Ret (f s) s.
Definition modify (f : Session -> Session) : M unit := fun s => Ret tt (f s).
Definition panic {A} : M A := fun s => Panic s.

(** ** Channel operations *)

(** [len(c)]; the length of a nil channel is 0. *)
Definition chan_len (c : option chan) : Z :=
  match c with
  | Some ch => Z.of_nat (length (buf ch))
  | None => 0
  end.

(** [c <- p] can proceed when the channel exists and its buffer has room;
    [None] when it cannot (a nil channel, or a full buffer with no receiver
    waiting). *)
Definition chan_send (c : option chan) (p : ptr) : option chan :=
  match c with
  | Some ch =>
      if Z.of_nat (length (buf ch)) <? cap ch
      then Some {| cap := cap ch; buf := buf ch ++ [p] |}
      else None
  | None => None
  end.

(** [<-c] can proceed when the channel exists and buffers an element. *)
Definition chan_recv (c : option chan) : option (ptr * chan) :=
  match c with
  | Some ch =>
      match buf ch with
      | p :: rest => Some (p, {| cap := cap ch; buf := rest |})
      | [] => None
      end
  | None => None
  end.

(** [make(chan *GitHubClientWrapper, size)] panics on a negative size.
    (Running out of memory for a huge size is not modelled.) *)
Definition make_chan (size : Z) : M chan :=
  if size <? 0 then panic else ret {| cap := size; buf := [] |}.

Definition send_Clients (p : ptr) : M unit :=
  fun s =>
    match chan_send (Clients s) p with
    | Some c => Ret tt (set_Clients (Some c) s)
    | None => Block s
    end.

Definition send_ExhaustedClients (p : ptr) : M unit :=
  fun s =>
    match chan_send (ExhaustedClients s) p with
    | Some c => Ret tt (set_ExhaustedClients (Some c) s)
    | None => Block s
    end.

(** ** The heap of wrappers *)

(** [&GitHubClientWrapper{...}] *)
Definition new_wrapper (w : GitHubClientWrapper) : M ptr :=
  fun s => Ret (length (heap s)) (set_heap (heap s ++ [w]) s).

(** [*client] *)
Definition load (client : ptr) : M GitHubClientWrapper :=
  fun s =>
    match heap s !! client with
    | Some w => Ret w s
    | None => Panic s
    end.

(** Modelled from the spec: the assignment [client.RateLimitedUntil = t] a
    worker performs on the handle it holds when the remote service reports a
    rate limit (the workers are not part of core/session.go). *)
Definition set_RateLimitedUntil (client : ptr) (t : Time) : M unit :=
  w <- load client ;;
  modify (fun s =>
    set_heap (<[client := {| Client := Client w; Token := Token w;
                             RateLimitedUntil := t |}]> (heap s)) s).

(** ** Logging and strings *)

(** Modelled from the spec: [Logger.Debug] and [Logger.Warn] (not part of
    core/session.go) emit one line and return. *)
Definition Log (l : level) (format : string) (a : list arg) : M unit :=
  modify (emit (EvLog {| lvl := l; fmt := format; args := a |})).

Definition Log_Debug := Log DEBUG.
Definition Log_Warn := Log WARN.

(** Modelled from the spec: [Logger.Fatal] (not part of core/session.go)
    emits its line and terminates the process. *)
Definition Log_Fatal (format : string) (a : list arg) : M unit :=
  fun s => Exit (emit (EvLog {| lvl := FATAL; fmt := format; args := a |}) s).

Definition slice (s : string) (n : nat) : M string :=
  match slice_to s n with
  | Some pre => ret pre
  | None => panic
  end.

Definition time_Sleep (d : Duration) : M unit := modify (emit (EvSleep d)).

(** ** The environment of the session *)

(** What the code asks of the outside world.
    - The remote service: [Users_Get token] is the error that
      [client.Users.Get(s.Context, "")] returns for the client built from
      [token] ([None] is Go's [nil]).
    - The clock: [clock k] is what the [k]-th call of [time.Now()] returns. *)
Class Env := {
  Users_Get : string -> option error;
  clock : nat -> Time
}.

Section Pool.

Context `{env : Env}.

Definition time_Now : M Time := fun s => Ret (clock (ticks s)) (tick s).

(** [time.Until(t)] is [t.Sub(time.Now())]. *)
Definition time_Until (t : Time) : M Duration :=
  now <- time_Now ;; ret (Time_Sub t now).

Definition client_Users_Get (token : string) : M (option error) :=
  fun s => Ret (Users_Get token) (emit (EvUsersGet token) s).

(** ** InitGitHubClients *)

(** The number of rounds of [for i := 0; i <= threads; i++]: none for a
    negative [threads], [threads + 1] otherwise.  (For the largest [int] the
    Go loop has no end; the model gives it [2 ^ 63] rounds, more than any
    channel can buffer.) *)
Definition rounds (threads : Z) : nat := Z.to_nat (threads + 1).

(** [n] rounds of the inner loop, whose body is
    [s.Clients <- &GitHubClientWrapper{client, token,
    time.Now().Add(-1 * time.Second)}]. *)
Fixpoint seed (n : nat) (client token : string) : M unit :=
  match n with
  | O => ret tt
  | S n' =>
      now <- time_Now ;;
      p <- new_wrapper {| Client := client; Token := token;
                          RateLimitedUntil := Time_Add now (-1 * Second) |} ;;
      send_Clients p ;;;
      seed n' client token
  end.

(** [for _, token := range s.Config.GitHubAccessTokens { ... }] *)
Fixpoint range_tokens (tokens : list string) : M unit :=
  match tokens with
  | [] => ret tt
  | token :: rest =>
      err <- client_Users_Get token ;;
      match err with
      | Some (ErrorResponse msg) =>
          pre <- slice token 10 ;;
          Log_Warn "Failed to validate token %s[..]: %s"
                   [AStr pre; AErr (ErrorResponse msg)] ;;;
          range_tokens rest
      | _ =>
          threads <- gets Threads ;;
          seed (rounds threads) token token ;;;
          range_tokens rest
      end
  end.

Definition InitGitHubClients : M unit :=
  local <- gets Local ;;
  if Z.of_nat (String.length local) <=? 0 then
    threads <- gets Threads ;;
    tokens <- gets GitHubAccessTokens ;;
    let chanSize := wrap64 (threads * (Z.of_nat (length tokens) + 1)) in
    c <- make_chan chanSize ;;
    modify (set_Clients (Some c)) ;;;
    e <- make_chan chanSize ;;
    modify (set_ExhaustedClients (Some e)) ;;;
    range_tokens tokens ;;;
    n <- gets (fun s => chan_len (Clients s)) ;;
    if n <? 1 then Log_Fatal "No valid GitHub tokens provided. Quitting!" []
    else ret tt
  else ret tt.

(** ** FreeClient *)

Definition FreeClient (client : ptr) : M unit :=
  w <- load client ;;
  now <- time_Now ;;
  if Time_After (RateLimitedUntil w) now
  then send_ExhaustedClients client
  else send_Clients client.

(** ** GetClient *)

(** How one round of the [for { select { ... } }] loop ends for the calling
    goroutine: the call returns a client, or the goroutine has drawn an
    exhausted client and slept (it still has to hand it back), or it took
    the default case. *)
Inductive polled :=
| Returned (client : ptr)
| Drew (client : ptr)
| Retry.

(** [case client := <-s.Clients] *)
Definition case_Clients (client : ptr) (c' : chan) : M polled :=
  modify (set_Clients (Some c')) ;;;
  w <- load client ;;
  pre <- slice (Token w) 10 ;;
  Log_Debug "Using client with token: %s" [AStr pre] ;;;
  ret (Returned client).

(** [case client := <-s.ExhaustedClients], up to and including the sleep *)
Definition case_ExhaustedClients (client : ptr) (c' : chan) : M polled :=
  modify (set_ExhaustedClients (Some c')) ;;;
  w <- load client ;;
  sleepTime <- time_Until (RateLimitedUntil w) ;;
  Log_Warn "All GitHub tokens exhausted/rate limited. Sleeping for %s"
           [ADur sleepTime] ;;;
  time_Sleep sleepTime ;;;
  ret (Drew client).

(** the rest of that case, after the sleep *)
Definition return_to_pool (client : ptr) : M unit :=
  w <- load client ;;
  pre <- slice (Token w) 10 ;;
  Log_Debug "Returning client %s to pool" [AStr pre] ;;;
  FreeClient client.

(** [default] *)
Definition case_default : M polled :=
  n <- gets (fun s => chan_len (Clients s)) ;;
  Log_Debug "Available Clients: %d" [AInt n] ;;;
  m <- gets (fun s => chan_len (ExhaustedClients s)) ;;
  Log_Debug "Exhausted Clients: %d" [AInt m] ;;;
  time_Sleep (Millisecond * 1000) ;;;
  ret Retry.

(** The [select].  A case can proceed when its channel buffers an element.
    When both receive cases can proceed Go chooses one of them by a uniform
    pseudo-random selection: [pick] is that choice ([true] for the first
    case).  The default case runs only when no other case can proceed. *)
Definition poll (pick : bool) : M polled :=
  ready <- gets (fun s => chan_recv (Clients s)) ;;
  exhausted <- gets (fun s => chan_recv (ExhaustedClients s)) ;;
  match ready, exhausted with
  | Some (client, c'), None => case_Clients client c'
  | None, Some (client, c') => case_ExhaustedClients client c'
  | Some (client1, c1), Some (client2, c2) =>
      if pick then case_Clients client1 c1
      else case_ExhaustedClients client2 c2
  | None, None => case_default
  end.

(** [GetClient] run by one goroutine on its own.  The loop has no bound: the
    list of picks is the number of rounds the run is followed for, and the
    result is [None] when the call has not returned within them. *)
Fixpoint GetClient (picks : list bool) : M (option ptr) :=
  match picks with
  | [] => ret None
  | pick :: picks' =>
      r <- poll pick ;;
      match r with
      | Returned client => ret (Some client)
      | Drew client => return_to_pool client ;;; GetClient picks'
      | Retry => GetClient picks'
      end
  end.

(** ** What a run leaves behind *)

Definition final {A} (r : result A) : Session :=
  match r with
  | Ret _ s => s
  | Block s => s
  | Panic s => s
  | Exit s => s
  end.

(** The log lines among the events of a trace, in order. *)
Fixpoint log_of (tr : list event) : list logline :=
  match tr with
  | [] => []
  | EvLog l :: tr' => l :: log_of tr'
  | _ :: tr' => log_of tr'
  end.

(** The validation requests among the events of a trace, in order. *)
Fixpoint requests_of (tr : list event) : list string :=
  match tr with
  | [] => []
  | EvUsersGet token :: tr' => token :: requests_of tr'
  | _ :: tr' => requests_of tr'
  end.

Definition is_fatal (l : logline) : bool :=
  match lvl l with FATAL => true | _ => false end.

Definition fatal_lines (tr : list event) : nat :=
  length (filter (fun l => is_fatal l = true) (log_of tr)).

(** The wrappers behind the addresses a channel buffers. *)
Definition wrappers_in (s : Session) (c : option chan) : list GitHubClientWrapper :=
  match c with
  | Some ch => omap (fun p => heap s !! p) (buf ch)
  | None => []
  end.

(** ** The loop of InitGitHubClients, described by its inputs *)

(** The tokens the loop does not skip: those whose validation request
    returned no error, or an error other than a [*github.ErrorResponse]. *)
Definition accepted (token : string) : bool :=
  match Users_Get token with
  | Some (ErrorResponse _) => false
  | _ => true
  end.

(** The tokens whose validation request returned no error at all. *)
Definition validated (token : string) : bool :=
  match Users_Get token with
  | None => true
  | Some _ => false
  end.

(** The wrappers of [n] rounds of the inner loop when the clock has been
    read [k] times before. *)
Fixpoint wrappers_from (k n : nat) (client token : string) : list GitHubClientWrapper :=
  match n with
  | O => []
  | S n' =>
      {| Client := client; Token := token;
         RateLimitedUntil := Time_Add (clock k) (-1 * Second) |}
      :: wrappers_from (S k) n' client token
  end.

Fixpoint pool_from (k n : nat) (tokens : list string) : list GitHubClientWrapper :=
  match tokens with
  | [] => []
  | token :: rest =>
      if accepted token
      then wrappers_from k n token token ++ pool_from (k + n) n rest
      else pool_from k n rest
  end.

Definition warn_line (token : string) (e : error) : logline :=
  {| lvl := WARN; fmt := "Failed to validate token %s[..]: %s";
     args := [AStr (substring 0 10 token); AErr e] |}.

Fixpoint validation_events (tokens : list string) : list event :=
  match tokens with
  | [] => []
  | token :: rest =>
      EvUsersGet token ::
      match Users_Get token with
      | Some (ErrorResponse msg) =>
          EvLog (warn_line token (ErrorResponse msg)) :: validation_events rest
      | _ => validation_events rest
      end
  end.

(** A token the loop skips must be sliceable for the warning. *)
Definition loggable (token : string) : Prop :=
  accepted token = false -> (10 <= String.length token)%nat.

Definition accepted_count (tokens : list string) : nat :=
  length (filter (fun t => accepted t = true) tokens).

(** The capacity [InitGitHubClients] computes for both channels. *)
Definition chanSize (s : Session) : Z :=
  wrap64 (Threads s * (Z.of_nat (length (GitHubAccessTokens s)) + 1)).

(** The size of the pool: one wrapper per round of the inner loop for each
    token that is not skipped. *)
Definition pool_size (s : Session) : nat :=
  (accepted_count (GitHubAccessTokens s) * rounds (Threads s))%nat.

(** The session once both channels are made. *)
Definition made (s : Session) : Session :=
  set_ExhaustedClients (Some {| cap := chanSize s; buf := [] |})
    (set_Clients (Some {| cap := chanSize s; buf := [] |}) s).

(** The session a run of the loop over all the tokens leaves when no send
    blocks and no slice panics. *)
Definition seeded (s : Session) : Session :=
  {| Local := Local s; Threads := Threads s;
     GitHubAccessTokens := GitHubAccessTokens s;
     Clients := Some {| cap := chanSize s;
                        buf := seq (length (heap s)) (pool_size s) |};
     ExhaustedClients := Some {| cap := chanSize s; buf := [] |};
     heap := heap s ++ pool_from (ticks s) (rounds (Threads s))
                                 (GitHubAccessTokens s);
     trace := trace s ++ validation_events (GitHubAccessTokens s);
     ticks := (ticks s + pool_size s)%nat |}.

Definition fatal_line : logline :=
  {| lvl := FATAL; fmt := "No valid GitHub tokens provided. Quitting!";
     args := [] |}.

(** The conditions under which the loop runs to its end: the channels can be
    made, every skipped token can be sliced for its warning, and the pool
    fits the capacity of the ready channel. *)
Definition completes (s : Session) : Prop :=
  0 <= chanSize s /\
  Forall loggable (GitHubAccessTokens s) /\
  Z.of_nat (pool_size s) <= chanSize s.

(** ** Goroutines using the pool *)

(** What a goroutine that uses the pool holds. *)
Inductive goroutine :=
| Idle                      (* no handle: outside GetClient, or at the top of its loop *)
| Sleeping (client : ptr)   (* in GetClient: drew [client] from the exhausted
                               channel and slept; has not handed it back yet *)
| Holding (client : ptr).   (* GetClient returned [client]; FreeClient not called yet *)

Definition held (g : goroutine) : list ptr :=
  match g with
  | Idle => []
  | Sleeping client => [client]
  | Holding client => [client]
  end.

(** The handles out of both channels, goroutine by goroutine. *)
Definition on_loan (gs : list goroutine) : list ptr := flat_map held gs.

Definition after_poll (r : polled) : goroutine :=
  match r with
  | Returned client => Holding client
  | Drew client => Sleeping client
  | Retry => Idle
  end.

Definition queue (c : option chan) : list ptr :=
  match c with
  | Some ch => buf ch
  | None => []
  end.

Definition capacity (c : option chan) : Z :=
  match c with
  | Some ch => cap ch
  | None => 0
  end.

(** One atomic step of one goroutine.  A goroutine without a handle runs a
    round of GetClient's loop; one that slept on an exhausted handle hands it
    back; one that holds a handle records a rate limit on it or frees it.
    A call that panics or stays blocked takes no step. *)
Inductive step : Session * list goroutine -> Session * list goroutine -> Prop :=
| step_poll (i : nat) (pick : bool) (r : polled) (s s' : Session)
            (gs : list goroutine) :
    gs !! i = Some Idle ->
    poll pick s = Ret r s' ->
    step (s, gs) (s', <[i := after_poll r]> gs)
| step_return (i : nat) (client : ptr) (s s' : Session) (gs : list goroutine) :
    gs !! i = Some (Sleeping client) ->
    return_to_pool client s = Ret tt s' ->
    step (s, gs) (s', <[i := Idle]> gs)
| step_limit (i : nat) (client : ptr) (t : Time) (s s' : Session)
             (gs : list goroutine) :
    gs !! i = Some (Holding client) ->
    set_RateLimitedUntil client t s = Ret tt s' ->
    step (s, gs) (s', gs)
| step_free (i : nat) (client : ptr) (s s' : Session) (gs : list goroutine) :
    gs !! i = Some (Holding client) ->
    FreeClient client s = Ret tt s' ->
    step (s, gs) (s', <[i := Idle]> gs).

(** All the handles there are: in the ready channel, in the exhausted
    channel, or with a goroutine. *)
Definition handles (s : Session) (gs : list goroutine) : list ptr :=
  queue (Clients s) ++ queue (ExhaustedClients s) ++ on_loan gs.

(** The handles are those of [hs], each wrapper exists, and each channel can
    buffer all of them. *)
Definition conserved (hs : list ptr) (cfg : Session * list goroutine) : Prop :=
  handles cfg.1 cfg.2 ≡ₚ hs /\
  (forall p, In p hs -> (p < length (heap cfg.1))%nat) /\
  Z.of_nat (length hs) <= capacity (Clients cfg.1) /\
  Z.of_nat (length hs) <= capacity (ExhaustedClients cfg.1).

(** ** Sessions that differ only in the tails of their tokens *)

(** Two tokens of at least ten bytes with the same first ten bytes. *)
Definition prefix_eqv (t1 t2 : string) : Prop :=
  (10 <= String.length t1)%nat /\ (10 <= String.length t2)%nat /\
  substring 0 10 t1 = substring 0 10 t2.

(** ... to which the remote service gives the same answer. *)
Definition token_eqv (t1 t2 : string) : Prop :=
  prefix_eqv t1 t2 /\ Users_Get t1 = Users_Get t2.

Definition wrapper_eqv (w1 w2 : GitHubClientWrapper) : Prop :=
  prefix_eqv (Token w1) (Token w2) /\
  RateLimitedUntil w1 = RateLimitedUntil w2.

Definition session_eqv (s1 s2 : Session) : Prop :=
  Local s1 = Local s2 /\ Threads s1 = Threads s2 /\
  Forall2 token_eqv (GitHubAccessTokens s1) (GitHubAccessTokens s2) /\
  Clients s1 = Clients s2 /\ ExhaustedClients s1 = ExhaustedClients s2 /\
  Forall2 wrapper_eqv (heap s1) (heap s2) /\
  log_of (trace s1) = log_of (trace s2) /\
  ticks s1 = ticks s2.

(** Two runs end the same way, with related values, in related sessions. *)
Definition result_rel {A} (R : A -> A -> Prop) (r1 r2 : result A) : Prop :=
  match r1, r2 with
  | Ret a s1, Ret b s2 => R a b /\ session_eqv s1 s2
  | Block s1, Block s2 => session_eqv s1 s2
  | Panic s1, Panic s2 => session_eqv s1 s2
  | Exit s1, Exit s2 => session_eqv s1 s2
  | _, _ => False
  end.

Definition M_rel {A} (R : A -> A -> Prop) (m1 m2 : M A) : Prop :=
  forall s1 s2, session_eqv s1 s2 -> result_rel R (m1 s1) (m2 s2).

(** ** Log lines whose string arguments have ten bytes *)

Definition ten_bytes (a : arg) : Prop :=
  match a with
  | AStr x => String.length x = 10%nat
  | _ => True
  end.

Definition prefix_only (l : logline) : Prop := Forall ten_bytes (args l).

Definition log_ok (s : Session) : Prop :=
  Forall prefix_only (log_of (trace s)).

(** No log line of the session has a token of more than ten bytes among
    its arguments. *)
Definition never_in_full (s : Session) : Prop :=
  forall token l,
    (10 < String.length token)%nat ->
    In l (log_of (trace s)) ->
    ~ In (AStr token) (args l).

(** A computation keeps [log_ok], however it ends, and returns values that
    satisfy [Q]. *)
Definition M_post {A} (Q : A -> Prop) (m : M A) : Prop :=
  forall s, log_ok s ->
    match m s with
    | Ret a s' => Q a /\ log_ok s'
    | Block s' => log_ok s'
    | Panic s' => log_ok s'
    | Exit s' => log_ok s'
    end.

(** ** The log lines of GetClient *)

Definition using_line (token : string) : logline :=
  {| lvl := DEBUG; fmt := "Using client with token: %s";
     args := [AStr (substring 0 10 token)] |}.

Definition returning_line (token : string) : logline :=
  {| lvl := DEBUG; fmt := "Returning client %s to pool";
     args := [AStr (substring 0 10 token)] |}.

Definition sleeping_line (d : Duration) : logline :=
  {| lvl := WARN;
     fmt := "All GitHub tokens exhausted/rate limited. Sleeping for %s";
     args := [ADur d] |}.

End Pool.

(** ** Sessions and environments of the examples *)

(** The session as [NewSession] leaves it before [Start]: both channels are
    nil, nothing is allocated, nothing has happened. *)
Definition new_session (local : string) (threads : Z) (tokens : list string)
  : Session :=
  {| Local := local; Threads := threads; GitHubAccessTokens := tokens;
     Clients := None; ExhaustedClients := None;
     heap := []; trace := []; ticks := 0 |}.

(** A clock that advances by a millisecond between two readings. *)
Definition wall (k : nat) : Time := 1000 * Second + Z.of_nat k * Millisecond.

Definition unauthorized : error := ErrorResponse "401 Bad credentials".
Definition unreachable : error := OtherError "dial tcp: i/o timeout".

Definition service_accepts_all : Env :=
  {| Users_Get := fun _ => None; clock := wall |}.

Definition service_rejects_all : Env :=
  {| Users_Get := fun _ => Some unauthorized; clock := wall |}.

Definition service_unreachable : Env :=
  {| Users_Get := fun _ => Some unreachable; clock := wall |}.

(** A service that knows one token and answers every other one with [e]. *)
Definition service_knows (good : string) (e : error) : Env :=
  {| Users_Get := fun t => if String.eqb t good then None else Some e;
     clock := wall |}.

Definition token_a : string := "ghp_aaaaaaaaaaaaaaaa".
Definition token_b : string := "ghp_bbbbbbbbbbbbbbbb".

(** One token, one worker: a pool of two handles; a worker draws handle 0,
    is told by the remote service to wait for an hour, and frees it. *)
Definition pool_of_two : Session :=
  final (InitGitHubClients (env := service_accepts_all)
           (new_session "" 1 [token_a])).

Definition drawn : Session :=
  final (GetClient (env := service_accepts_all) [true] pool_of_two).

Definition limited : Session :=
  final (set_RateLimitedUntil 0 (wall 2 + 3600 * Second) drawn).

Definition one_exhausted : Session :=
  final (FreeClient (env := service_accepts_all) 0 limited).

(** ** What a computation leaves alone *)

(** Whatever way the computation ends, the session it ends in is related by
    [R] to the session it started from. *)
Definition M_keeps {A} (R : Session -> Session -> Prop) (m : M A) : Prop :=
  forall s, R s (final (m s)).

(** Relations that the steps of [GetClient] and [FreeClient] respect: reading
    the clock, emitting an event, replacing a channel. *)
Definition pool_stable (R : Session -> Session -> Prop) : Prop :=
  (forall s, R s s) /\
  (forall s1 s2 s3, R s1 s2 -> R s2 s3 -> R s1 s3) /\
  (forall s, R s (tick s)) /\
  (forall s e, R s (emit e s)) /\
  (forall s c, R s (set_Clients c s)) /\
  (forall s c, R s (set_ExhaustedClients c s)).

(** ... and that allocating a wrapper respects too. *)
Definition alloc_stable (R : Session -> Session -> Prop) : Prop :=
  pool_stable R /\ forall s w, R s (set_heap (heap s ++ [w]) s).

(** The options and the configuration the pool reads. *)
Definition settings (s : Session) : string * Z * list string :=
  (Local s, Threads s, GitHubAccessTokens s).

Definition same_settings (s s' : Session) : Prop := settings s' = settings s.
Definition same_heap (s s' : Session) : Prop := heap s' = heap s.
Definition heap_grows (s s' : Session) : Prop := heap s `prefix_of` heap s'.

Section PoolMore.

Context `{env : Env}.

(** The warnings the loop of [InitGitHubClients] logs for a list of tokens:
    one for each token answered with an error response, in order. *)
Definition warnings (tokens : list string) : list logline :=
  flat_map (fun token =>
              match Users_Get token with
              | Some (ErrorResponse msg) => [warn_line token (ErrorResponse msg)]
              | _ => []
              end) tokens.

End PoolMore.

(** The three events of a round of [GetClient] that finds both channels
    empty: the two occupancy lines and the sleep of a second. *)
Definition idle_round : list event :=
  [ EvLog {| lvl := DEBUG; fmt := "Available Clients: %d"; args := [AInt 0] |};
    EvLog {| lvl := DEBUG; fmt := "Exhausted Clients: %d"; args := [AInt 0] |};
    EvSleep (Millisecond * 1000) ].

Fixpoint idle_rounds (n : nat) : list event :=
  match n with
  | O => []
  | S n' => idle_round ++ idle_rounds n'
  end.

(** ** InitThreads *)

Definition set_Threads (n : Z) (s : Session) : Session :=
  {| Local := Local s; Threads := n;
     GitHubAccessTokens := GitHubAccessTokens s;
     Clients := Clients s; ExhaustedClients := ExhaustedClients s;
     heap := heap s; trace := trace s; ticks := ticks s |}.

(** [InitThreads].  [NumCPU] is what [runtime.NumCPU()] returns; the value
    returned is the argument the call passes to [runtime.GOMAXPROCS]. *)
Definition InitThreads (NumCPU : Z) : M Z :=
  threads <- gets Threads ;;
  (if threads =? 0 then modify (set_Threads NumCPU) else ret tt) ;;;
  threads <- gets Threads ;;
  ret (wrap64 (threads + 1)).

(** ** The CSV output: InitCsvWriter and WriteToCsv *)

(** A line of the CSV file: its fields.  How [encoding/csv] writes a record
    as bytes is the library's business; a file is modelled as the list of
    the records appended to it. *)
Abbreviation record := (list string).

(** [s.CsvWriter] once set: [csv.NewWriter(file)] for the file opened for
    appending at a path, or for the nil file that a failed [os.OpenFile]
    returns. *)
Inductive csv_Writer :=
| WriterOn (path : string)
| WriterOnNil.

(** The part of the session and of the machine the CSV output uses. *)
Record Output := {
  CSVPath : string;                    (* *s.Options.CSVPath *)
  CsvWriter : option csv_Writer;       (* s.CsvWriter, [None] for nil *)
  disk : gmap string (list record);    (* the files that exist *)
  errors : list (string * string)      (* the calls of s.Log.Error *)
}.

(** What the operating system answers.  [PathExists] is a helper of the
    repository whose source is not part of core/session.go: its answer for a
    path is taken as given.  [OpenFile path] is the error of
    [os.OpenFile(path, O_APPEND|O_CREATE|O_WRONLY, 0644)], [None] for nil. *)
Class Os := {
  PathExists : string -> bool;
  OpenFile : string -> option string
}.

Inductive csv_result :=
| Done (o : Output)     (* the call returns *)
| Crashed.              (* nil pointer dereference *)

Definition set_disk (d : gmap string (list record)) (o : Output) : Output :=
  {| CSVPath := CSVPath o; CsvWriter := CsvWriter o; disk := d;
     errors := errors o |}.

Definition set_CsvWriter (w : csv_Writer) (o : Output) : Output :=
  {| CSVPath := CSVPath o; CsvWriter := Some w; disk := disk o;
     errors := errors o |}.

(** Modelled from the spec: [Logger.Error] (not part of core/session.go)
    emits its line and returns. *)
Definition Log_Error (format err : string) (o : Output) : Output :=
  {| CSVPath := CSVPath o; CsvWriter := CsvWriter o; disk := disk o;
     errors := errors o ++ [(format, err)] |}.

(** The records of the file at a path, none when there is no such file. *)
Definition records_at (path : string) (d : gmap string (list record))
  : list record :=
  default [] (d !! path).

(** [w.Write(line); w.Flush()] on a writer over a file opened with
    [O_APPEND]: the record goes to the end of the file. *)
Definition append_record (path : string) (line : record)
           (d : gmap string (list record)) : gmap string (list record) :=
  <[path := records_at path d ++ [line]]> d.

(** A successful open with [O_CREATE]: the file exists afterwards, with the
    records it had. *)
Definition create (path : string) (d : gmap string (list record))
  : gmap string (list record) :=
  <[path := records_at path d]> d.

Definition WriteToCsv (line : record) (o : Output) : csv_result :=
  if String.eqb (CSVPath o) "" then Done o
  else
    match CsvWriter o with
    | None => Crashed
    | Some (WriterOn path) => Done (set_disk (append_record path line (disk o)) o)
    | Some WriterOnNil => Done o   (* the write fails, the error is dropped *)
    end.

Definition csv_header : record :=
  ["Repository name"; "Signature name"; "Matching file"; "Matches"]%string.

Section CsvOutput.

Context `{os : Os}.

Definition InitCsvWriter (o : Output) : csv_result :=
  if String.eqb (CSVPath o) "" then Done o
  else
    let writeHeader := negb (PathExists (CSVPath o)) in
    let o1 :=
      match OpenFile (CSVPath o) with
      | None =>
          set_CsvWriter (WriterOn (CSVPath o))
            (set_disk (create (CSVPath o) (disk o)) o)
      | Some err =>
          set_CsvWriter WriterOnNil
            (Log_Error "Could not create/open CSV file: %v" err o)
      end in
    if writeHeader then WriteToCsv csv_header o1 else Done o1.

End CsvOutput.

(** A sequence of calls of [WriteToCsv], as the workers make them. *)
Fixpoint write_all (lines : list record) (o : Output) : csv_result :=
  match lines with
  | [] => Done o
  | line :: rest =>
      match WriteToCsv line o with
      | Done o' => write_all rest o'
      | Crashed => Crashed
      end
  end.

(** * Properties *)

Section PoolProofs.

Context `{env : Env}.

(** ** Proofs: initialisation *)

Lemma seed_returns (n : nat) (client token : string) :
  forall (s : Session) (c : chan),
    Clients s = Some c ->
    Z.of_nat (length (buf c)) + Z.of_nat n <= cap c ->
    seed n client token s =
    Ret tt {| Local := Local s; Threads := Threads s;
              GitHubAccessTokens := GitHubAccessTokens s;
              Clients := Some {| cap := cap c;
                                 buf := buf c ++ seq (length (heap s)) n |};
              ExhaustedClients := ExhaustedClients s;
              heap := heap s ++ wrappers_from (ticks s) n client token;
              trace := trace s;
              ticks := (ticks s + n)%nat |}.
Proof.
  induction n as [|n IH]; intros s c Hc Hcap.
  - destruct s, c; simpl in *; subst.
    unfold ret. rewrite !app_nil_r, Nat.add_0_r. reflexivity.
  - cbn [seed]. unfold bind at 1. unfold time_Now.
    unfold bind at 1. unfold new_wrapper.
    unfold bind at 1. unfold send_Clients. cbn.
    rewrite Hc. unfold chan_send.
    destruct (Z.ltb_spec (Z.of_nat (length (buf c))) (cap c)) as [_|Hfull]; [|lia].
    erewrite IH; [|reflexivity|cbn; rewrite length_app; cbn; lia].
    cbn. rewrite length_app. cbn.
    rewrite <- !app_assoc. cbn.
    repeat f_equal; lia.
Qed.

Lemma bind_ret {A B} (a : A) (k : A -> M B) (s : Session) :
  bind (ret a) k s = k a s.
Proof. reflexivity. Qed.

Lemma bind_gets {A B} (f : Session -> A) (k : A -> M B) (s : Session) :
  bind (gets f) k s = k (f s) s.
Proof. reflexivity. Qed.

Lemma bind_modify {B} (f : Session -> Session) (k : unit -> M B) (s : Session) :
  bind (modify f) k s = k tt (f s).
Proof. reflexivity. Qed.

Lemma bind_panic {A B} (k : A -> M B) (s : Session) :
  bind panic k s = Panic s.
Proof. reflexivity. Qed.

Lemma bind_assoc {A B C} (m : M A) (k : A -> M B) (h : B -> M C) (s : Session) :
  bind (bind m k) h s = bind m (fun a => bind (k a) h) s.
Proof. unfold bind. destruct (m s); reflexivity. Qed.

Lemma slice_ok (t : string) (n : nat) :
  (n <= String.length t)%nat -> slice t n = ret (substring 0 n t).
Proof.
  intros H. unfold slice, slice_to.
  destruct (Nat.leb_spec n (String.length t)); [reflexivity|lia].
Qed.

Lemma slice_short (t : string) (n : nat) (s : Session) :
  (String.length t < n)%nat -> slice t n s = Panic s.
Proof.
  intros H. unfold slice, slice_to.
  destruct (Nat.leb_spec n (String.length t)); [lia|reflexivity].
Qed.

Lemma length_wrappers_from (n : nat) :
  forall (k : nat) (client token : string),
    length (wrappers_from k n client token) = n.
Proof. induction n; intros; cbn; [reflexivity|f_equal; auto]. Qed.

Lemma accepted_count_cons (token : string) (rest : list string) :
  accepted_count (token :: rest) =
  ((if accepted token then 1 else 0) + accepted_count rest)%nat.
Proof.
  unfold accepted_count. rewrite filter_cons.
  destruct (accepted token); case_decide; done.
Qed.

Lemma range_tokens_skip (token : string) (rest : list string) (msg : string)
      (s : Session) :
  Users_Get token = Some (ErrorResponse msg) ->
  (10 <= String.length token)%nat ->
  range_tokens (token :: rest) s =
  range_tokens rest
    (emit (EvLog (warn_line token (ErrorResponse msg)))
          (emit (EvUsersGet token) s)).
Proof.
  intros Hget Hlen. cbn [range_tokens].
  unfold bind at 1. unfold client_Users_Get. rewrite Hget.
  rewrite slice_ok by assumption. reflexivity.
Qed.

Lemma range_tokens_short (token : string) (rest : list string) (msg : string)
      (s : Session) :
  Users_Get token = Some (ErrorResponse msg) ->
  (String.length token < 10)%nat ->
  range_tokens (token :: rest) s = Panic (emit (EvUsersGet token) s).
Proof.
  intros Hget Hlen. cbn [range_tokens].
  unfold bind at 1. unfold client_Users_Get. rewrite Hget.
  unfold bind at 1. rewrite slice_short by assumption. reflexivity.
Qed.

Lemma range_tokens_seed (token : string) (rest : list string) (s : Session) :
  accepted token = true ->
  range_tokens (token :: rest) s =
  bind (seed (rounds (Threads s)) token token)
       (fun _ => range_tokens rest) (emit (EvUsersGet token) s).
Proof.
  intros Hacc. cbn [range_tokens].
  unfold bind at 1. unfold client_Users_Get. unfold accepted in Hacc.
  destruct (Users_Get token) as [[msg|msg]|]; [discriminate|reflexivity..].
Qed.

Lemma accepted_false (token : string) :
  accepted token = false -> exists msg, Users_Get token = Some (ErrorResponse msg).
Proof.
  unfold accepted. destruct (Users_Get token) as [[msg|msg]|]; eauto; discriminate.
Qed.

Lemma range_tokens_returns (tokens : list string) :
  forall (s : Session) (c : chan),
    Clients s = Some c ->
    Forall loggable tokens ->
    Z.of_nat (length (buf c))
      + Z.of_nat (accepted_count tokens * rounds (Threads s)) <= cap c ->
    range_tokens tokens s =
    Ret tt {| Local := Local s; Threads := Threads s;
              GitHubAccessTokens := GitHubAccessTokens s;
              Clients :=
                Some {| cap := cap c;
                        buf := buf c ++
                               seq (length (heap s))
                                   (accepted_count tokens * rounds (Threads s)) |};
              ExhaustedClients := ExhaustedClients s;
              heap := heap s ++ pool_from (ticks s) (rounds (Threads s)) tokens;
              trace := trace s ++ validation_events tokens;
              ticks := (ticks s + accepted_count tokens * rounds (Threads s))%nat |}.
Proof.
  induction tokens as [|token rest IH]; intros s c Hc Hlog Hcap.
  - destruct s, c; simpl in *; subst. unfold ret.
    rewrite !app_nil_r, Nat.add_0_r. reflexivity.
  - inversion Hlog as [|? ? Htok Hrest]; subst.
    rewrite accepted_count_cons in *.
    cbn [validation_events pool_from].
    destruct (accepted token) eqn:Hacc.
    + rewrite range_tokens_seed by assumption.
      unfold bind.
      erewrite seed_returns; [|exact Hc|cbn; lia].
      erewrite IH; [|reflexivity|assumption|cbn; rewrite length_app, length_seq; lia].
      cbn. rewrite length_app, length_wrappers_from.
      rewrite seq_app, <- !app_assoc, Nat.add_assoc.
      replace (match Users_Get token with
               | Some (ErrorResponse msg) =>
                   EvLog (warn_line token (ErrorResponse msg))
                   :: validation_events rest
               | _ => validation_events rest
               end) with (validation_events rest); [reflexivity|].
      unfold accepted in Hacc.
      destruct (Users_Get token) as [[msg|msg]|]; [discriminate|reflexivity..].
    + destruct (accepted_false _ Hacc) as [msg Hget].
      rewrite (range_tokens_skip _ _ msg) by auto.
      erewrite IH; [|exact Hc|assumption|exact Hcap].
      cbn. rewrite Hget. rewrite <- !app_assoc. reflexivity.
Qed.

Lemma Init_local (s : Session) :
  Local s <> EmptyString -> InitGitHubClients s = Ret tt s.
Proof.
  intros Hl. unfold InitGitHubClients. rewrite bind_gets.
  destruct (Local s) as [|a l]; [congruence|]. reflexivity.
Qed.

Lemma Init_made (s : Session) :
  Local s = EmptyString ->
  0 <= chanSize s ->
  InitGitHubClients s =
  bind (range_tokens (GitHubAccessTokens s))
       (fun _ =>
          n <- gets (fun s => chan_len (Clients s)) ;;
          if n <? 1
          then Log_Fatal "No valid GitHub tokens provided. Quitting!" []
          else ret tt)
       (made s).
Proof.
  intros Hl Hsize.
  unfold InitGitHubClients. rewrite bind_gets, Hl.
  change (Z.of_nat (String.length EmptyString) <=? 0) with true. cbv iota.
  rewrite !bind_gets. fold (chanSize s). unfold make_chan.
  destruct (Z.ltb_spec (chanSize s) 0) as [|_]; [lia|].
  rewrite bind_ret, bind_modify, bind_ret, bind_modify. reflexivity.
Qed.

Lemma Init_panics_on_size (s : Session) :
  Local s = EmptyString ->
  chanSize s < 0 ->
  InitGitHubClients s = Panic s.
Proof.
  intros Hl Hsize.
  unfold InitGitHubClients. rewrite bind_gets, Hl.
  change (Z.of_nat (String.length EmptyString) <=? 0) with true. cbv iota.
  rewrite !bind_gets. fold (chanSize s). unfold make_chan.
  destruct (Z.ltb_spec (chanSize s) 0) as [_|]; [|lia].
  reflexivity.
Qed.

Lemma Init_completes (s : Session) :
  Local s = EmptyString ->
  completes s ->
  InitGitHubClients s =
  if (pool_size s =? 0)%nat
  then Exit (emit (EvLog fatal_line) (seeded s))
  else Ret tt (seeded s).
Proof.
  intros Hl (Hsize & Hlog & Hfit).
  rewrite Init_made by assumption.
  unfold bind at 1.
  erewrite range_tokens_returns; [|reflexivity|exact Hlog|cbn; exact Hfit].
  rewrite bind_gets. cbn.
  fold (pool_size s). rewrite length_seq. unfold seeded.
  destruct (pool_size s) as [|n]; [reflexivity|].
  destruct (Z.ltb_spec (Z.of_nat (S n)) 1) as [|_]; [lia|reflexivity].
Qed.

(** *** The pool a completed loop leaves *)

Lemma wrap64_small (z : Z) : - 2 ^ 63 <= z < 2 ^ 63 -> wrap64 z = z.
Proof. intros H. unfold wrap64. rewrite Z.mod_small; lia. Qed.

Lemma chanSize_exact (s : Session) :
  0 <= Threads s ->
  Threads s * (Z.of_nat (length (GitHubAccessTokens s)) + 1) < 2 ^ 63 ->
  chanSize s = Threads s * (Z.of_nat (length (GitHubAccessTokens s)) + 1).
Proof. intros H0 H1. unfold chanSize. apply wrap64_small. nia. Qed.

Lemma rounds_nonneg (w : Z) : 0 <= w -> rounds w = S (Z.to_nat w).
Proof. intros H. unfold rounds. rewrite Z2Nat.inj_add by lia. simpl. lia. Qed.

Lemma length_pool_from (n : nat) (tokens : list string) :
  forall k, length (pool_from k n tokens) = (accepted_count tokens * n)%nat.
Proof.
  induction tokens as [|token rest IH]; intros k; [reflexivity|].
  rewrite accepted_count_cons. cbn [pool_from].
  destruct (accepted token).
  - rewrite length_app, length_wrappers_from, IH. lia.
  - rewrite IH. lia.
Qed.

Lemma Token_wrappers_from (n : nat) :
  forall k client token,
    map Token (wrappers_from k n client token) = replicate n token.
Proof. induction n; intros; cbn; [reflexivity|f_equal; auto]. Qed.

Lemma Token_pool_from (n : nat) (tokens : list string) :
  forall k,
    map Token (pool_from k n tokens) =
    flat_map (replicate n) (filter (fun t => accepted t = true) tokens).
Proof.
  induction tokens as [|token rest IH]; intros k; [reflexivity|].
  cbn [pool_from]. rewrite filter_cons.
  destruct (accepted token); case_decide; try done.
  cbn [flat_map]. rewrite map_app, Token_wrappers_from, IH. reflexivity.
Qed.

Lemma wrappers_from_usable (n : nat) :
  forall k client token w,
    In w (wrappers_from k n client token) ->
    exists j, (k <= j < k + n)%nat /\
              RateLimitedUntil w = Time_Add (clock j) (-1 * Second).
Proof.
  induction n as [|n IH]; intros k client token w Hin; [destruct Hin|].
  destruct Hin as [<-|Hin].
  - exists k. split; [lia|reflexivity].
  - destruct (IH _ _ _ _ Hin) as (j & Hj & Hw). exists j. split; [lia|exact Hw].
Qed.

Lemma pool_from_usable (n : nat) (tokens : list string) :
  forall k w,
    In w (pool_from k n tokens) ->
    exists j, (k <= j < k + accepted_count tokens * n)%nat /\
              RateLimitedUntil w = Time_Add (clock j) (-1 * Second).
Proof.
  induction tokens as [|token rest IH]; intros k w Hin; [destruct Hin|].
  rewrite accepted_count_cons. cbn [pool_from] in Hin.
  destruct (accepted token).
  - apply in_app_or in Hin. destruct Hin as [Hin|Hin].
    + destruct (wrappers_from_usable _ _ _ _ _ Hin) as (j & Hj & Hw).
      exists j. split; [lia|exact Hw].
    + destruct (IH _ _ Hin) as (j & Hj & Hw).
      exists j. split; [lia|exact Hw].
  - destruct (IH _ _ Hin) as (j & Hj & Hw). exists j. split; [lia|exact Hw].
Qed.

Lemma omap_lookup_seq {A} (l : list A) :
  forall h : list A,
    omap (fun p => (h ++ l) !! p) (seq (length h) (length l)) = l.
Proof.
  induction l as [|x l IH]; intros h; [reflexivity|].
  cbn [length seq omap list_omap].
  rewrite list_lookup_middle by reflexivity.
  f_equal.
  specialize (IH (h ++ [x])).
  rewrite length_app, <- app_assoc in IH. cbn in IH.
  rewrite Nat.add_1_r in IH. exact IH.
Qed.

Lemma seeded_pool (s : Session) :
  wrappers_in (seeded s) (Clients (seeded s)) =
  pool_from (ticks s) (rounds (Threads s)) (GitHubAccessTokens s).
Proof.
  unfold wrappers_in, seeded, pool_size. cbn.
  rewrite <- (length_pool_from (rounds (Threads s)) (GitHubAccessTokens s) (ticks s)).
  apply omap_lookup_seq.
Qed.

Lemma Init_final (s : Session) :
  Local s = EmptyString ->
  completes s ->
  (pool_size s <> 0%nat /\ InitGitHubClients s = Ret tt (seeded s)) \/
  (pool_size s = 0%nat /\
   InitGitHubClients s = Exit (emit (EvLog fatal_line) (seeded s))).
Proof.
  intros Hl Hc. rewrite (Init_completes s Hl Hc).
  destruct (Nat.eqb_spec (pool_size s) 0); [right|left]; split; auto.
Qed.

Lemma log_of_app (a b : list event) : log_of (a ++ b) = log_of a ++ log_of b.
Proof.
  induction a as [|e a IH]; [reflexivity|].
  destruct e; cbn; rewrite IH; reflexivity.
Qed.

Lemma requests_of_app (a b : list event) :
  requests_of (a ++ b) = requests_of a ++ requests_of b.
Proof.
  induction a as [|e a IH]; [reflexivity|].
  destruct e; cbn; rewrite IH; reflexivity.
Qed.

Lemma fatal_lines_app (a b : list event) :
  fatal_lines (a ++ b) = (fatal_lines a + fatal_lines b)%nat.
Proof. unfold fatal_lines. rewrite log_of_app, filter_app, length_app. reflexivity. Qed.

Lemma fatal_lines_validation (tokens : list string) :
  fatal_lines (validation_events tokens) = 0%nat.
Proof.
  induction tokens as [|token rest IH]; [reflexivity|].
  cbn [validation_events].
  destruct (Users_Get token) as [[msg|msg]|]; exact IH.
Qed.

(** C8: when the local-mode flag is non-empty, [InitGitHubClients] returns
    with the session exactly as it found it: it sends no validation request,
    makes neither channel (a channel that was nil stays nil), changes no
    other field, and does not reach the fatal exit. *)
Theorem local_mode_skips_pool (s : Session) :
  Local s <> EmptyString ->
  InitGitHubClients s = Ret tt s /\
  requests_of (trace (final (InitGitHubClients s))) = requests_of (trace s) /\
  Clients (final (InitGitHubClients s)) = Clients s /\
  ExhaustedClients (final (InitGitHubClients s)) = ExhaustedClients s /\
  (forall s', InitGitHubClients s <> Exit s').
Proof.
  intros Hl. rewrite (Init_local s Hl). cbn [final].
  repeat split; intros; discriminate.
Qed.

(** C6: once the loop over the supplied tokens has run to its end (the
    session is then [seeded s]), the test on [len(s.Clients)] decides: with
    no handle in the ready channel the run ends in [os.Exit] after exactly
    one fatal line, and no pool is returned; with at least one handle the
    call returns, and no fatal line is logged.  With a non-negative worker
    count the pool is empty exactly when no token was accepted. *)
Theorem fatal_iff_empty_pool (s : Session) :
  Local s = EmptyString ->
  completes s ->
  range_tokens (GitHubAccessTokens s) (made s) = Ret tt (seeded s) /\
  (chan_len (Clients (seeded s)) < 1 ->
   InitGitHubClients s = Exit (emit (EvLog fatal_line) (seeded s)) /\
   fatal_lines (trace (final (InitGitHubClients s))) = S (fatal_lines (trace s))) /\
  (1 <= chan_len (Clients (seeded s)) ->
   InitGitHubClients s = Ret tt (seeded s) /\
   fatal_lines (trace (final (InitGitHubClients s))) = fatal_lines (trace s)) /\
  (0 <= Threads s ->
   (chan_len (Clients (seeded s)) < 1 <->
    accepted_count (GitHubAccessTokens s) = 0%nat)).
Proof.
  intros Hl Hc.
  assert (Hlen : chan_len (Clients (seeded s)) = Z.of_nat (pool_size s)).
  { cbn. rewrite length_seq. reflexivity. }
  rewrite Hlen. split; [|split; [|split]].
  - destruct Hc as (Hsize & Hlog & Hfit).
    rewrite (range_tokens_returns _ (made s) {| cap := chanSize s; buf := [] |}
               eq_refl Hlog Hfit).
    reflexivity.
  - intros Hn. destruct (Init_final s Hl Hc) as [[Hp _]|[_ ->]]; [lia|].
    split; [reflexivity|]. cbn [final emit trace seeded].
    rewrite !fatal_lines_app, fatal_lines_validation.
    change (fatal_lines [EvLog fatal_line]) with 1%nat. lia.
  - intros Hn. destruct (Init_final s Hl Hc) as [[_ ->]|[Hp _]]; [|lia].
    split; [reflexivity|]. cbn [final trace seeded].
    rewrite fatal_lines_app, fatal_lines_validation. lia.
  - intros Hw. unfold pool_size. rewrite (rounds_nonneg _ Hw). split; nia.
Qed.

Lemma Init_final_pool (s : Session) :
  Local s = EmptyString ->
  completes s ->
  let s' := final (InitGitHubClients s) in
  Clients s' = Clients (seeded s) /\
  ExhaustedClients s' = ExhaustedClients (seeded s) /\
  heap s' = heap (seeded s) /\
  ticks s' = ticks (seeded s) /\
  wrappers_in s' (Clients s') =
  pool_from (ticks s) (rounds (Threads s)) (GitHubAccessTokens s).
Proof.
  intros Hl Hc s'. subst s'. rewrite <- seeded_pool.
  destruct (Init_final s Hl Hc) as [[_ ->]|[_ ->]]; repeat split; reflexivity.
Qed.

(** C4 (amended): when the loop runs to its end, with [N] the number of
    tokens the loop accepts (validation returned no error, or an error that
    is not an error response) and [R] the worker count, exactly
    [N * (R + 1)] wrappers are constructed, all of them are in the ready
    channel in the order of construction, the exhausted channel is empty,
    and the [RateLimitedUntil] of each is one second before the reading of
    the clock at its construction, hence before every later reading of a
    monotone clock.  The call returns when [N] is not zero. *)
Theorem init_pool_size (s : Session) :
  Local s = EmptyString ->
  0 <= Threads s ->
  completes s ->
  let s' := final (InitGitHubClients s) in
  let N := accepted_count (GitHubAccessTokens s) in
  let R := Z.to_nat (Threads s) in
  exists ready exhausted,
    Clients s' = Some ready /\ ExhaustedClients s' = Some exhausted /\
    length (heap s') = (length (heap s) + N * (R + 1))%nat /\
    buf ready = seq (length (heap s)) (N * (R + 1)) /\
    buf exhausted = [] /\
    length (wrappers_in s' (Clients s')) = (N * (R + 1))%nat /\
    (forall w, In w (wrappers_in s' (Clients s')) ->
       exists j, (ticks s <= j < ticks s')%nat /\
                 RateLimitedUntil w = clock j - Second /\
                 RateLimitedUntil w < clock j) /\
    ((forall i j, (i <= j)%nat -> clock i <= clock j) ->
     forall w k, In w (wrappers_in s' (Clients s')) ->
       (ticks s' <= k)%nat -> RateLimitedUntil w < clock k) /\
    (N <> 0%nat -> InitGitHubClients s = Ret tt s').
Proof.
  intros Hl Hw Hc s' N R.
  destruct (Init_final_pool s Hl Hc) as (Hcl & Hex & Hheap & Hticks & Hpool).
  fold s' in Hcl, Hex, Hheap, Hticks, Hpool.
  assert (Hsize : pool_size s = (N * (R + 1))%nat).
  { unfold pool_size. rewrite (rounds_nonneg _ Hw). subst N R. lia. }
  assert (Husable : forall w, In w (wrappers_in s' (Clients s')) ->
            exists j, (ticks s <= j < ticks s')%nat /\
                      RateLimitedUntil w = clock j - Second /\
                      RateLimitedUntil w < clock j).
  { intros w Hin. rewrite Hpool in Hin.
    destruct (pool_from_usable _ _ _ _ Hin) as (j & Hj & Hwj).
    exists j. rewrite Hticks. cbn [ticks seeded]. unfold pool_size.
    unfold Time_Add in Hwj. unfold Second, Millisecond, Nanosecond in *.
    repeat split; lia. }
  eexists _, _. split; [rewrite Hcl; reflexivity|].
  split; [rewrite Hex; reflexivity|].
  split; [rewrite Hheap; cbn; rewrite length_app, length_pool_from;
          fold (pool_size s); lia|].
  split; [cbn; rewrite Hsize; reflexivity|].
  split; [reflexivity|].
  split; [rewrite Hpool, length_pool_from; fold (pool_size s); exact Hsize|].
  split; [exact Husable|].
  split.
  - intros Hmono w k Hin Hk.
    destruct (Husable w Hin) as (j & Hj & _ & Hlt).
    specialize (Hmono j k). lia.
  - intros HN. destruct (Init_final s Hl Hc) as [[_ Hret]|[Hz _]].
    + subst s'. rewrite Hret. reflexivity.
    + rewrite Hsize in Hz. lia.
Qed.

(** C2 (amended): when the loop runs to its end, a token whose validation
    request returned an error response is skipped and the loop goes on with
    the tokens after it; a token whose validation request failed with any
    other error is not skipped.  The tokens behind the handles of the pool
    are, in order, [R + 1] copies of each token that is not skipped, the
    wrappers constructed are exactly those handles, and none of them is
    backed by a token whose validation request returned an error
    response. *)
Theorem init_skips_error_responses (s : Session) :
  Local s = EmptyString ->
  0 <= Threads s ->
  completes s ->
  let s' := final (InitGitHubClients s) in
  let pool := wrappers_in s' (Clients s') in
  (InitGitHubClients s = Ret tt s' \/ InitGitHubClients s = Exit s') /\
  drop (length (heap s)) (heap s') = pool /\
  map Token pool =
    flat_map (replicate (Z.to_nat (Threads s) + 1))
             (filter (fun t => accepted t = true) (GitHubAccessTokens s)) /\
  (forall w, In w pool ->
     In (Token w) (GitHubAccessTokens s) /\
     forall msg, Users_Get (Token w) <> Some (ErrorResponse msg)) /\
  (forall token msg, In token (GitHubAccessTokens s) ->
     Users_Get token = Some (OtherError msg) ->
     exists w, In w pool /\ Token w = token).
Proof.
  intros Hl Hw Hc s' pool.
  destruct (Init_final_pool s Hl Hc) as (Hcl & Hex & Hheap & Hticks & Hpool).
  fold s' in Hcl, Hex, Hheap, Hticks, Hpool. fold pool in Hpool.
  assert (Htok : map Token pool =
            flat_map (replicate (Z.to_nat (Threads s) + 1))
              (filter (fun t => accepted t = true) (GitHubAccessTokens s))).
  { rewrite Hpool, Token_pool_from, (rounds_nonneg _ Hw), Nat.add_1_r.
    reflexivity. }
  assert (Hmem : forall token, In token (map Token pool) <->
            In token (GitHubAccessTokens s) /\ accepted token = true).
  { intros token. rewrite Htok, in_flat_map. split.
    - intros (t & Ht & Hin).
      apply list_elem_of_In, elem_of_replicate in Hin. destruct Hin as [-> _].
      apply list_elem_of_In, list_elem_of_filter in Ht. destruct Ht as [Ha Ht].
      split; [apply list_elem_of_In; exact Ht|exact Ha].
    - intros [Hin Ha]. exists token. split.
      + apply list_elem_of_In, list_elem_of_filter. split; [exact Ha|].
        apply list_elem_of_In. exact Hin.
      + apply list_elem_of_In, elem_of_replicate. split; [reflexivity|lia]. }
  split; [|split; [|split; [exact Htok|split]]].
  - subst s'. destruct (Init_final s Hl Hc) as [[_ ->]|[_ ->]]; auto.
  - rewrite Hheap. cbn [heap seeded]. rewrite drop_app_length. symmetry. exact Hpool.
  - intros w Hin.
    destruct (proj1 (Hmem (Token w)) (in_map Token _ _ Hin)) as [Hcfg Ha].
    split; [exact Hcfg|]. intros msg Hget.
    unfold accepted in Ha. rewrite Hget in Ha. discriminate.
  - intros token msg Hin Hget.
    assert (Ha : accepted token = true) by (unfold accepted; rewrite Hget; reflexivity).
    destruct (proj1 (in_map_iff Token pool token) (proj2 (Hmem token) (conj Hin Ha)))
      as (w & Hw' & Hinw).
    exists w. auto.
Qed.

(** ** Proofs: FreeClient and GetClient *)

Lemma bind_load {B} (client : ptr) (w : GitHubClientWrapper)
      (k : GitHubClientWrapper -> M B) (s : Session) :
  heap s !! client = Some w -> bind (load client) k s = k w s.
Proof. intros H. unfold bind, load. rewrite H. reflexivity. Qed.

Lemma bind_time_Now {B} (k : Time -> M B) (s : Session) :
  bind time_Now k s = k (clock (ticks s)) (tick s).
Proof. reflexivity. Qed.

Lemma FreeClient_eq (client : ptr) (w : GitHubClientWrapper) (s : Session) :
  heap s !! client = Some w ->
  FreeClient client s =
  (if Time_After (RateLimitedUntil w) (clock (ticks s))
   then send_ExhaustedClients client
   else send_Clients client) (tick s).
Proof.
  intros H. unfold FreeClient. rewrite (bind_load _ w) by assumption.
  rewrite bind_time_Now. reflexivity.
Qed.

Lemma send_Clients_room (p : ptr) (c : chan) (s : Session) :
  Clients s = Some c ->
  Z.of_nat (length (buf c)) < cap c ->
  send_Clients p s =
  Ret tt (set_Clients (Some {| cap := cap c; buf := buf c ++ [p] |}) s).
Proof.
  intros Hc Hroom. unfold send_Clients, chan_send. rewrite Hc.
  destruct (Z.ltb_spec (Z.of_nat (length (buf c))) (cap c)); [reflexivity|lia].
Qed.

Lemma send_ExhaustedClients_room (p : ptr) (c : chan) (s : Session) :
  ExhaustedClients s = Some c ->
  Z.of_nat (length (buf c)) < cap c ->
  send_ExhaustedClients p s =
  Ret tt (set_ExhaustedClients (Some {| cap := cap c; buf := buf c ++ [p] |}) s).
Proof.
  intros Hc Hroom. unfold send_ExhaustedClients, chan_send. rewrite Hc.
  destruct (Z.ltb_spec (Z.of_nat (length (buf c))) (cap c)); [reflexivity|lia].
Qed.

(** C5: a handle released while both channels have room goes to the
    exhausted channel exactly when its [RateLimitedUntil] is strictly after
    the reading of the clock [FreeClient] takes, and to the ready channel
    otherwise; it is appended to exactly one of the two channels, the other
    is left as it was, and the wrappers are untouched. *)
Theorem FreeClient_routes (s : Session) (client : ptr)
        (w : GitHubClientWrapper) (ready exhausted : chan) :
  heap s !! client = Some w ->
  Clients s = Some ready ->
  ExhaustedClients s = Some exhausted ->
  Z.of_nat (length (buf ready)) < cap ready ->
  Z.of_nat (length (buf exhausted)) < cap exhausted ->
  let now := clock (ticks s) in
  exists s' ready' exhausted',
    FreeClient client s = Ret tt s' /\
    heap s' = heap s /\
    Clients s' = Some ready' /\ ExhaustedClients s' = Some exhausted' /\
    ((now < RateLimitedUntil w /\
      buf exhausted' = buf exhausted ++ [client] /\ buf ready' = buf ready) \/
     (RateLimitedUntil w <= now /\
      buf ready' = buf ready ++ [client] /\ buf exhausted' = buf exhausted)).
Proof.
  intros Hw Hr He Hroomr Hroome now.
  rewrite (FreeClient_eq _ w) by assumption. fold now. unfold Time_After.
  destruct (Z.ltb_spec now (RateLimitedUntil w)) as [Hlt|Hge].
  - rewrite (send_ExhaustedClients_room _ exhausted) by assumption.
    eexists _, ready, _. split; [reflexivity|]. cbn.
    repeat split; auto.
  - rewrite (send_Clients_room _ ready) by assumption.
    eexists _, _, exhausted. split; [reflexivity|]. cbn.
    repeat split; auto.
Qed.

Lemma poll_ready (pick : bool) (client : ptr) (c' : chan) (s : Session) :
  chan_recv (Clients s) = Some (client, c') ->
  pick = true \/ chan_recv (ExhaustedClients s) = None ->
  poll pick s = case_Clients client c' s.
Proof.
  intros Hr Hp. unfold poll. rewrite !bind_gets, Hr.
  destruct Hp as [-> | ->]; [|reflexivity].
  destruct (chan_recv (ExhaustedClients s)) as [[? ?]|]; reflexivity.
Qed.

Lemma poll_exhausted (pick : bool) (client : ptr) (c' : chan) (s : Session) :
  chan_recv (ExhaustedClients s) = Some (client, c') ->
  pick = false \/ chan_recv (Clients s) = None ->
  poll pick s = case_ExhaustedClients client c' s.
Proof.
  intros He Hp. unfold poll. rewrite !bind_gets, He.
  destruct Hp as [-> | ->]; [|reflexivity].
  destruct (chan_recv (Clients s)) as [[? ?]|]; reflexivity.
Qed.

Lemma poll_default (pick : bool) (s : Session) :
  chan_recv (Clients s) = None ->
  chan_recv (ExhaustedClients s) = None ->
  poll pick s = case_default s.
Proof. intros Hr He. unfold poll. rewrite !bind_gets, Hr, He. reflexivity. Qed.

Lemma case_Clients_eq (client : ptr) (c' : chan) (w : GitHubClientWrapper)
      (s : Session) :
  heap s !! client = Some w ->
  (10 <= String.length (Token w))%nat ->
  case_Clients client c' s =
  Ret (Returned client)
      (emit (EvLog (using_line (Token w))) (set_Clients (Some c') s)).
Proof.
  intros Hw Hlen. unfold case_Clients. rewrite bind_modify.
  rewrite (bind_load _ w) by exact Hw.
  rewrite slice_ok by assumption. reflexivity.
Qed.

Lemma case_Clients_short (client : ptr) (c' : chan) (w : GitHubClientWrapper)
      (s : Session) :
  heap s !! client = Some w ->
  (String.length (Token w) < 10)%nat ->
  case_Clients client c' s = Panic (set_Clients (Some c') s).
Proof.
  intros Hw Hlen. unfold case_Clients. rewrite bind_modify.
  rewrite (bind_load _ w) by exact Hw.
  unfold bind. rewrite slice_short by assumption. reflexivity.
Qed.

Lemma case_ExhaustedClients_eq (client : ptr) (c' : chan)
      (w : GitHubClientWrapper) (s : Session) :
  heap s !! client = Some w ->
  let d := Time_Sub (RateLimitedUntil w) (clock (ticks s)) in
  case_ExhaustedClients client c' s =
  Ret (Drew client)
      (emit (EvSleep d)
         (emit (EvLog (sleeping_line d))
            (tick (set_ExhaustedClients (Some c') s)))).
Proof.
  intros Hw d. unfold case_ExhaustedClients. rewrite bind_modify.
  rewrite (bind_load _ w) by exact Hw. reflexivity.
Qed.

Lemma return_to_pool_eq (client : ptr) (w : GitHubClientWrapper) (s : Session) :
  heap s !! client = Some w ->
  (10 <= String.length (Token w))%nat ->
  return_to_pool client s =
  FreeClient client (emit (EvLog (returning_line (Token w))) s).
Proof.
  intros Hw Hlen. unfold return_to_pool.
  rewrite (bind_load _ w) by exact Hw.
  rewrite slice_ok by assumption. reflexivity.
Qed.

Lemma return_to_pool_short (client : ptr) (w : GitHubClientWrapper) (s : Session) :
  heap s !! client = Some w ->
  (String.length (Token w) < 10)%nat ->
  return_to_pool client s = Panic s.
Proof.
  intros Hw Hlen. unfold return_to_pool.
  rewrite (bind_load _ w) by exact Hw.
  unfold bind. rewrite slice_short by assumption. reflexivity.
Qed.

Lemma range_tokens_app (a b : list string) :
  forall s, range_tokens (a ++ b) s =
            bind (range_tokens a) (fun _ => range_tokens b) s.
Proof.
  induction a as [|token rest IH]; intros s; [reflexivity|].
  cbn [app]. unfold bind.
  destruct (accepted token) eqn:Hacc.
  - rewrite !range_tokens_seed by assumption. unfold bind.
    destruct (seed _ _ _ _); try reflexivity. apply IH.
  - destruct (accepted_false _ Hacc) as [msg Hget].
    destruct (Nat.le_gt_cases 10 (String.length token)) as [Hlen|Hlen].
    + rewrite !(range_tokens_skip _ _ msg) by assumption. apply IH.
    + rewrite !(range_tokens_short _ _ msg) by assumption. reflexivity.
Qed.

(** C10: slicing the first ten bytes of a token succeeds exactly when the
    token has at least ten bytes.  For a token of fewer than ten bytes the
    slice panics: in [InitGitHubClients] when the loop reaches the token and
    its validation request returned an error response, in [GetClient] when a
    handle carrying the token is drawn from the ready channel, and in
    [GetClient] when such a handle, drawn from the exhausted channel, is to
    be returned to the pool after the sleep. *)
Theorem short_token_panics (token : string) :
  (String.length token < 10)%nat ->
  (forall t, is_Some (slice_to t 10) <-> (10 <= String.length t)%nat) /\
  (forall s pre rest msg,
     Local s = EmptyString ->
     0 <= chanSize s ->
     GitHubAccessTokens s = pre ++ token :: rest ->
     Forall loggable pre ->
     Z.of_nat (accepted_count pre * rounds (Threads s)) <= chanSize s ->
     Users_Get token = Some (ErrorResponse msg) ->
     exists s', InitGitHubClients s = Panic s') /\
  (forall s pick picks client c' w,
     chan_recv (Clients s) = Some (client, c') ->
     pick = true \/ chan_recv (ExhaustedClients s) = None ->
     heap s !! client = Some w ->
     Token w = token ->
     exists s', GetClient (pick :: picks) s = Panic s') /\
  (forall s pick picks client c' w,
     chan_recv (ExhaustedClients s) = Some (client, c') ->
     pick = false \/ chan_recv (Clients s) = None ->
     heap s !! client = Some w ->
     Token w = token ->
     exists s', GetClient (pick :: picks) s = Panic s').
Proof.
  intros Hshort. split; [|split; [|split]].
  - intros t. unfold slice_to.
    destruct (Nat.leb_spec 10 (String.length t)); split; intros H'; eauto; try lia.
    destruct H' as [? H']. discriminate.
  - intros s pre rest msg Hl Hsize Htokens Hlog Hfit Hget.
    rewrite Init_made by assumption. rewrite Htokens.
    unfold bind at 1. rewrite range_tokens_app. unfold bind at 1.
    rewrite (range_tokens_returns pre (made s) {| cap := chanSize s; buf := [] |}
               eq_refl Hlog Hfit).
    rewrite (range_tokens_short _ _ msg) by assumption. eauto.
  - intros s pick picks client c' w Hr Hp Hw <-.
    cbn [GetClient]. unfold bind at 1.
    rewrite (poll_ready _ _ _ _ Hr Hp).
    rewrite (case_Clients_short _ _ w) by assumption. eauto.
  - intros s pick picks client c' w He Hp Hw <-.
    cbn [GetClient]. unfold bind at 1.
    rewrite (poll_exhausted _ _ _ _ He Hp).
    rewrite (case_ExhaustedClients_eq _ _ w) by assumption.
    unfold bind at 1.
    rewrite (return_to_pool_short _ w) by assumption. eauto.
Qed.

(** ** Proofs: conservation of the handles *)

Ltac run_in H :=
  unfold poll, case_Clients, case_ExhaustedClients, case_default,
    return_to_pool, FreeClient, set_RateLimitedUntil, time_Until, time_Now,
    time_Sleep, Log_Debug, Log_Warn, Log, slice, load, send_Clients,
    send_ExhaustedClients, chan_send, chan_recv, bind, gets, modify, ret,
    panic in H;
  repeat (case_match; simplify_eq/=).

Lemma FreeClient_Ret (client : ptr) (s s' : Session) :
  FreeClient client s = Ret tt s' ->
  heap s' = heap s /\
  capacity (Clients s') = capacity (Clients s) /\
  capacity (ExhaustedClients s') = capacity (ExhaustedClients s) /\
  queue (Clients s') ++ queue (ExhaustedClients s') ≡ₚ
  client :: queue (Clients s) ++ queue (ExhaustedClients s).
Proof.
  intros H. run_in H.
  - rewrite H. cbn. repeat split. solve_Permutation.
  - match goal with H' : Clients _ = Some _ |- _ => rewrite H' end.
    cbn. repeat split. solve_Permutation.
Qed.

Lemma return_to_pool_Ret (client : ptr) (s s' : Session) :
  return_to_pool client s = Ret tt s' ->
  heap s' = heap s /\
  capacity (Clients s') = capacity (Clients s) /\
  capacity (ExhaustedClients s') = capacity (ExhaustedClients s) /\
  queue (Clients s') ++ queue (ExhaustedClients s') ≡ₚ
  client :: queue (Clients s) ++ queue (ExhaustedClients s).
Proof.
  intros H. unfold return_to_pool in H.
  unfold bind at 1 in H. destruct (load client s) as [w s1| | |] eqn:Hload;
    try discriminate.
  unfold bind at 1 in H. destruct (slice (Token w) 10 s1) as [pre s2| | |] eqn:Hs;
    try discriminate.
  unfold bind at 1 in H. unfold Log_Debug, Log, modify in H.
  apply FreeClient_Ret in H. cbn in H.
  run_in Hload. run_in Hs. exact H.
Qed.

Lemma set_RateLimitedUntil_Ret (client : ptr) (t : Time) (s s' : Session) :
  set_RateLimitedUntil client t s = Ret tt s' ->
  length (heap s') = length (heap s) /\
  Clients s' = Clients s /\ ExhaustedClients s' = ExhaustedClients s.
Proof.
  intros H. run_in H. cbn. rewrite length_insert. auto.
Qed.

Lemma poll_Ret (pick : bool) (r : polled) (s s' : Session) :
  poll pick s = Ret r s' ->
  heap s' = heap s /\
  capacity (Clients s') = capacity (Clients s) /\
  capacity (ExhaustedClients s') = capacity (ExhaustedClients s) /\
  held (after_poll r) ++ queue (Clients s') ++ queue (ExhaustedClients s') ≡ₚ
  queue (Clients s) ++ queue (ExhaustedClients s).
Proof.
  intros H. run_in H; repeat split; solve_Permutation.
Qed.

Lemma on_loan_insert (gs : list goroutine) (i : nat) (g g' : goroutine) :
  gs !! i = Some g ->
  on_loan (<[i := g']> gs) ++ held g ≡ₚ held g' ++ on_loan gs.
Proof.
  intros Hi. unfold on_loan.
  rewrite <- (take_drop_middle gs i g Hi) at 2.
  rewrite (insert_take_drop gs i g') by (eapply lookup_lt_Some; exact Hi).
  rewrite !flat_map_app. cbn [flat_map].
  solve_Permutation.
Qed.

Lemma step_conserved (hs : list ptr) (cfg cfg' : Session * list goroutine) :
  step cfg cfg' -> conserved hs cfg -> conserved hs cfg'.
Proof.
  intros Hstep (Hperm & Hvalid & Hcr & Hce). unfold conserved, handles in *.
  destruct Hstep as [i pick r s s' gs Hi Hrun|i client s s' gs Hi Hrun
                    |i client t s s' gs Hi Hrun|i client s s' gs Hi Hrun];
    cbn [fst snd] in *.
  - apply poll_Ret in Hrun. destruct Hrun as (Hh & Hc1 & Hc2 & Hq).
    rewrite Hh, Hc1, Hc2. repeat split; auto.
    pose proof (on_loan_insert gs i Idle (after_poll r) Hi) as Hl.
    cbn [held] in Hl. rewrite app_nil_r in Hl.
    rewrite <- Hperm, Hl.
    trans ((held (after_poll r) ++ queue (Clients s') ++
            queue (ExhaustedClients s')) ++ on_loan gs);
      [solve_Permutation|rewrite Hq; solve_Permutation].
  - apply return_to_pool_Ret in Hrun. destruct Hrun as (Hh & Hc1 & Hc2 & Hq).
    rewrite Hh, Hc1, Hc2. repeat split; auto.
    pose proof (on_loan_insert gs i (Sleeping client) Idle Hi) as Hl.
    cbn [held app] in Hl.
    rewrite <- Hperm, <- Hl, !app_assoc, Hq. solve_Permutation.
  - apply set_RateLimitedUntil_Ret in Hrun. destruct Hrun as (Hh & -> & ->).
    rewrite Hh. repeat split; auto.
  - apply FreeClient_Ret in Hrun. destruct Hrun as (Hh & Hc1 & Hc2 & Hq).
    rewrite Hh, Hc1, Hc2. repeat split; auto.
    pose proof (on_loan_insert gs i (Holding client) Idle Hi) as Hl.
    cbn [held app] in Hl.
    rewrite <- Hperm, <- Hl, !app_assoc, Hq. solve_Permutation.
Qed.

Lemma rtc_conserved (hs : list ptr) (cfg cfg' : Session * list goroutine) :
  rtc step cfg cfg' -> conserved hs cfg -> conserved hs cfg'.
Proof.
  induction 1 as [|cfg cfg1 cfg2 Hstep _ IH]; [auto|].
  intros Hc. apply IH. eapply step_conserved; eauto.
Qed.

Lemma step_heap_length (cfg cfg' : Session * list goroutine) :
  step cfg cfg' -> length (heap cfg'.1) = length (heap cfg.1).
Proof.
  intros [i pick r s s' gs Hi Hrun|i client s s' gs Hi Hrun
         |i client t s s' gs Hi Hrun|i client s s' gs Hi Hrun]; cbn [fst].
  - apply poll_Ret in Hrun. destruct Hrun as [-> _]. reflexivity.
  - apply return_to_pool_Ret in Hrun. destruct Hrun as [-> _]. reflexivity.
  - apply set_RateLimitedUntil_Ret in Hrun. tauto.
  - apply FreeClient_Ret in Hrun. destruct Hrun as [-> _]. reflexivity.
Qed.

Lemma rtc_heap_length (cfg cfg' : Session * list goroutine) :
  rtc step cfg cfg' -> length (heap cfg'.1) = length (heap cfg.1).
Proof.
  induction 1 as [|cfg cfg1 cfg2 Hstep _ IH]; [reflexivity|].
  rewrite IH. apply step_heap_length. exact Hstep.
Qed.

Lemma on_loan_idle (n : nat) : on_loan (replicate n Idle) = [].
Proof. induction n; [reflexivity|exact IHn]. Qed.

Lemma seeded_conserved (s : Session) (n : nat) :
  completes s ->
  conserved (seq (length (heap s)) (pool_size s)) (seeded s, replicate n Idle).
Proof.
  intros (Hsize & Hlog & Hfit). unfold conserved, handles. cbn.
  rewrite on_loan_idle, app_nil_r, length_seq, length_app, length_pool_from.
  fold (pool_size s). repeat split; auto.
  intros p Hin. apply in_seq in Hin. lia.
Qed.

Lemma on_loan_lookup (gs : list goroutine) (i : nat) (g : goroutine) (p : ptr) :
  gs !! i = Some g -> In p (held g) -> In p (on_loan gs).
Proof.
  intros Hi Hp. unfold on_loan. apply in_flat_map. exists g. split; [|exact Hp].
  apply list_elem_of_In. eapply list_elem_of_lookup_2. exact Hi.
Qed.

(** A goroutine that holds a handle is never kept waiting by [FreeClient]:
    while a handle is out of the channels, each channel has room for it. *)
Lemma free_never_blocks (hs : list ptr) (s : Session) (gs : list goroutine)
      (i : nat) (g : goroutine) (client : ptr) :
  conserved hs (s, gs) ->
  gs !! i = Some g ->
  In client (held g) ->
  exists s', FreeClient client s = Ret tt s'.
Proof.
  intros (Hperm & Hvalid & Hcr & Hce) Hi Hheld. cbn [fst snd] in *.
  pose proof (on_loan_lookup _ _ _ _ Hi Hheld) as Hloan.
  assert (Hin : In client hs).
  { apply list_elem_of_In. rewrite <- Hperm. unfold handles.
    rewrite !elem_of_app. right. right. apply list_elem_of_In. exact Hloan. }
  destruct (lookup_lt_is_Some_2 (heap s) client (Hvalid _ Hin)) as [w Hw].
  pose proof (Permutation_length Hperm) as Hlen. unfold handles in Hlen.
  rewrite !length_app in Hlen.
  assert (0 < length (on_loan gs))%nat.
  { destruct (on_loan gs); [destruct Hloan|cbn; lia]. }
  rewrite (FreeClient_eq _ w) by exact Hw.
  destruct (Time_After _ _).
  - destruct (ExhaustedClients s) as [e|] eqn:He; cbn in *; [|lia].
    rewrite (send_ExhaustedClients_room _ e) by (cbn; auto; lia). eauto.
  - destruct (Clients s) as [c|] eqn:Hc; cbn in *; [|lia].
    rewrite (send_Clients_room _ c) by (cbn; auto; lia). eauto.
Qed.

(** C7: from the pool a returning [InitGitHubClients] leaves, with every
    goroutine idle, every sequence of steps of the goroutines (rounds of
    GetClient, handing back after the sleep, recording a rate limit,
    FreeClient) keeps the handles in the ready channel, in the exhausted
    channel and with the goroutines a permutation of the [N * (R + 1)]
    handles constructed: no handle occurs twice, so each is in exactly one
    of the three places and with at most one goroutine, their number is
    constant, and no wrapper is allocated or lost. *)
Theorem handle_conservation (s s0 s' : Session) (n : nat)
        (gs : list goroutine) :
  Local s = EmptyString ->
  0 <= Threads s ->
  completes s ->
  InitGitHubClients s = Ret tt s0 ->
  rtc step (s0, replicate n Idle) (s', gs) ->
  let total := (accepted_count (GitHubAccessTokens s)
                * (Z.to_nat (Threads s) + 1))%nat in
  handles s' gs ≡ₚ seq (length (heap s)) total /\
  NoDup (handles s' gs) /\
  (length (queue (Clients s')) + length (queue (ExhaustedClients s'))
   + length (on_loan gs))%nat = total /\
  length (heap s') = length (heap s0).
Proof.
  intros Hl Hw Hc Hinit Hsteps total.
  assert (Htotal : pool_size s = total).
  { unfold pool_size, total. rewrite (rounds_nonneg _ Hw). lia. }
  assert (Hs0 : s0 = seeded s).
  { destruct (Init_final s Hl Hc) as [[_ Hret]|[_ Hexit]]; congruence. }
  subst s0.
  pose proof (rtc_conserved _ _ _ Hsteps (seeded_conserved s n Hc)) as Hinv.
  destruct Hinv as (Hperm & _). cbn [fst snd] in Hperm. rewrite Htotal in Hperm.
  split; [exact Hperm|]. split; [|split].
  - rewrite Hperm. apply NoDup_ListNoDup, seq_NoDup.
  - pose proof (Permutation_length Hperm) as Hlen. unfold handles in Hlen.
    rewrite !length_app, length_seq in Hlen. lia.
  - apply (rtc_heap_length _ _ Hsteps).
Qed.

(** ** Proofs: the log shows only the first ten bytes of a token *)

Lemma result_rel_final {A} (R : A -> A -> Prop) (r1 r2 : result A) :
  result_rel R r1 r2 -> session_eqv (final r1) (final r2).
Proof. destruct r1, r2; cbn; tauto. Qed.

Lemma bind_rel {A B} (R : A -> A -> Prop) (Q : B -> B -> Prop)
      (m1 m2 : M A) (k1 k2 : A -> M B) :
  M_rel R m1 m2 ->
  (forall a b, R a b -> M_rel Q (k1 a) (k2 b)) ->
  M_rel Q (bind m1 k1) (bind m2 k2).
Proof.
  intros Hm Hk s1 s2 Hs. unfold bind. specialize (Hm s1 s2 Hs).
  destruct (m1 s1), (m2 s2); cbn in Hm; try contradiction; try exact Hm.
  destruct Hm as [Hab Hs']. exact (Hk _ _ Hab _ _ Hs').
Qed.

Lemma ret_rel {A} (R : A -> A -> Prop) (a b : A) : R a b -> M_rel R (ret a) (ret b).
Proof. intros Hab s1 s2 Hs. cbn. auto. Qed.

Lemma panic_rel {A} (R : A -> A -> Prop) : M_rel R panic panic.
Proof. intros s1 s2 Hs. exact Hs. Qed.

Lemma gets_rel {A} (R : A -> A -> Prop) (f : Session -> A) :
  (forall s1 s2, session_eqv s1 s2 -> R (f s1) (f s2)) ->
  M_rel R (gets f) (gets f).
Proof. intros Hf s1 s2 Hs. cbn. auto. Qed.

Lemma modify_rel (f1 f2 : Session -> Session) :
  (forall s1 s2, session_eqv s1 s2 -> session_eqv (f1 s1) (f2 s2)) ->
  M_rel eq (modify f1) (modify f2).
Proof. intros Hf s1 s2 Hs. cbn. auto. Qed.

Lemma emit_log_eqv (l : logline) (s1 s2 : Session) :
  session_eqv s1 s2 -> session_eqv (emit (EvLog l) s1) (emit (EvLog l) s2).
Proof.
  intros (H1 & H2 & H3 & H4 & H5 & H6 & H7 & H8). unfold session_eqv. cbn.
  rewrite !log_of_app, H7. repeat split; auto.
Qed.

Lemma emit_request_eqv (t1 t2 : string) (s1 s2 : Session) :
  session_eqv s1 s2 ->
  session_eqv (emit (EvUsersGet t1) s1) (emit (EvUsersGet t2) s2).
Proof.
  intros (H1 & H2 & H3 & H4 & H5 & H6 & H7 & H8). unfold session_eqv. cbn.
  rewrite !log_of_app, H7. repeat split; auto.
Qed.

Lemma emit_sleep_eqv (d : Duration) (s1 s2 : Session) :
  session_eqv s1 s2 -> session_eqv (emit (EvSleep d) s1) (emit (EvSleep d) s2).
Proof.
  intros (H1 & H2 & H3 & H4 & H5 & H6 & H7 & H8). unfold session_eqv. cbn.
  rewrite !log_of_app, H7. repeat split; auto.
Qed.

Lemma set_Clients_eqv (c : option chan) (s1 s2 : Session) :
  session_eqv s1 s2 -> session_eqv (set_Clients c s1) (set_Clients c s2).
Proof. intros (H1 & H2 & H3 & H4 & H5 & H6 & H7 & H8). repeat split; auto. Qed.

Lemma set_ExhaustedClients_eqv (c : option chan) (s1 s2 : Session) :
  session_eqv s1 s2 ->
  session_eqv (set_ExhaustedClients c s1) (set_ExhaustedClients c s2).
Proof. intros (H1 & H2 & H3 & H4 & H5 & H6 & H7 & H8). repeat split; auto. Qed.

Lemma Log_rel (l : level) (format : string) (a : list arg) :
  M_rel eq (Log l format a) (Log l format a).
Proof. apply modify_rel. intros. apply emit_log_eqv. assumption. Qed.

Lemma Log_Fatal_rel (format : string) (a : list arg) :
  M_rel (@eq unit) (Log_Fatal format a) (Log_Fatal format a).
Proof. intros s1 s2 Hs. cbn. apply emit_log_eqv. assumption. Qed.

Lemma time_Sleep_rel (d : Duration) : M_rel eq (time_Sleep d) (time_Sleep d).
Proof. apply modify_rel. intros. apply emit_sleep_eqv. assumption. Qed.

Lemma time_Now_rel : M_rel eq time_Now time_Now.
Proof.
  intros s1 s2 (H1 & H2 & H3 & H4 & H5 & H6 & H7 & H8).
  unfold time_Now, tick, result_rel, session_eqv. cbn.
  rewrite H8. repeat split; auto.
Qed.

Lemma slice_rel (t1 t2 : string) :
  prefix_eqv t1 t2 -> M_rel eq (slice t1 10) (slice t2 10).
Proof.
  intros (Hl1 & Hl2 & Hpre). rewrite !slice_ok by assumption.
  apply ret_rel. exact Hpre.
Qed.

Lemma load_rel (client : ptr) : M_rel wrapper_eqv (load client) (load client).
Proof.
  intros s1 s2 Hs. unfold load.
  pose proof Hs as (_ & _ & _ & _ & _ & Hheap & _).
  destruct (heap s1 !! client) as [w1|] eqn:E1.
  - destruct (Forall2_lookup_l _ _ _ _ _ Hheap E1) as (w2 & E2 & Hw).
    rewrite E2. cbn. auto.
  - rewrite (lookup_ge_None_2 (heap s2) client); [exact Hs|].
    rewrite <- (Forall2_length _ _ _ Hheap). apply lookup_ge_None. exact E1.
Qed.

Lemma new_wrapper_rel (w1 w2 : GitHubClientWrapper) :
  wrapper_eqv w1 w2 -> M_rel eq (new_wrapper w1) (new_wrapper w2).
Proof.
  intros Hw s1 s2 (H1 & H2 & H3 & H4 & H5 & H6 & H7 & H8). cbn.
  split; [apply (Forall2_length _ _ _ H6)|].
  repeat split; auto. cbn. apply Forall2_app; auto.
Qed.

Lemma send_Clients_rel (p : ptr) : M_rel eq (send_Clients p) (send_Clients p).
Proof.
  intros s1 s2 Hs. unfold send_Clients.
  pose proof Hs as (_ & _ & _ & <- & _).
  destruct (chan_send (Clients s1) p); cbn; auto using set_Clients_eqv.
Qed.

Lemma send_ExhaustedClients_rel (p : ptr) :
  M_rel eq (send_ExhaustedClients p) (send_ExhaustedClients p).
Proof.
  intros s1 s2 Hs. unfold send_ExhaustedClients.
  pose proof Hs as (_ & _ & _ & _ & <- & _).
  destruct (chan_send (ExhaustedClients s1) p); cbn;
    auto using set_ExhaustedClients_eqv.
Qed.

Lemma client_Users_Get_rel (t1 t2 : string) :
  token_eqv t1 t2 -> M_rel eq (client_Users_Get t1) (client_Users_Get t2).
Proof.
  intros [_ Hget] s1 s2 Hs. unfold client_Users_Get. cbn.
  split; [exact Hget|]. apply emit_request_eqv. exact Hs.
Qed.

Lemma seed_rel (n : nat) (c1 c2 t1 t2 : string) :
  prefix_eqv t1 t2 -> M_rel eq (seed n c1 t1) (seed n c2 t2).
Proof.
  intros Ht. induction n as [|n IH]; [apply ret_rel; reflexivity|].
  cbn [seed].
  apply (bind_rel eq); [apply time_Now_rel|intros now ? <-].
  apply (bind_rel eq); [apply new_wrapper_rel; split; [exact Ht|reflexivity]|].
  intros p ? <-.
  apply (bind_rel eq); [apply send_Clients_rel|intros _ _ _]. exact IH.
Qed.

Lemma range_tokens_rel (ts1 ts2 : list string) :
  Forall2 token_eqv ts1 ts2 -> M_rel eq (range_tokens ts1) (range_tokens ts2).
Proof.
  induction 1 as [|t1 t2 ts1 ts2 Ht _ IH]; [apply ret_rel; reflexivity|].
  cbn [range_tokens].
  apply (bind_rel eq); [apply client_Users_Get_rel; exact Ht|intros err ? <-].
  destruct Ht as [Hpre _].
  destruct err as [[msg|msg]|].
  - apply (bind_rel eq); [apply slice_rel; exact Hpre|intros pre ? <-].
    apply (bind_rel eq); [apply Log_rel|intros _ _ _]. exact IH.
  - apply (bind_rel eq); [apply gets_rel; intros ? ? Hs; apply Hs|].
    intros threads ? <-.
    apply (bind_rel eq); [apply seed_rel; exact Hpre|intros _ _ _]. exact IH.
  - apply (bind_rel eq); [apply gets_rel; intros ? ? Hs; apply Hs|].
    intros threads ? <-.
    apply (bind_rel eq); [apply seed_rel; exact Hpre|intros _ _ _]. exact IH.
Qed.

Lemma make_chan_rel (size : Z) : M_rel eq (make_chan size) (make_chan size).
Proof.
  unfold make_chan. destruct (size <? 0); [apply panic_rel|apply ret_rel; reflexivity].
Qed.

Lemma InitGitHubClients_rel : M_rel eq InitGitHubClients InitGitHubClients.
Proof.
  unfold InitGitHubClients.
  apply (bind_rel eq); [apply gets_rel; intros ? ? Hs; apply Hs|intros local ? <-].
  destruct (Z.of_nat (String.length local) <=? 0); [|apply ret_rel; reflexivity].
  apply (bind_rel eq); [apply gets_rel; intros ? ? Hs; apply Hs|].
  intros threads ? <-.
  apply (bind_rel (Forall2 token_eqv)); [apply gets_rel; intros ? ? Hs; apply Hs|].
  intros ts1 ts2 Hts. rewrite (Forall2_length _ _ _ Hts).
  apply (bind_rel eq); [apply make_chan_rel|intros c ? <-].
  apply (bind_rel eq);
    [apply modify_rel; intros; apply set_Clients_eqv; assumption|intros _ _ _].
  apply (bind_rel eq); [apply make_chan_rel|intros e ? <-].
  apply (bind_rel eq);
    [apply modify_rel; intros; apply set_ExhaustedClients_eqv; assumption|].
  intros _ _ _.
  apply (bind_rel eq); [apply range_tokens_rel; exact Hts|intros _ _ _].
  apply (bind_rel eq).
  - apply gets_rel. intros s1 s2 (_ & _ & _ & -> & _). reflexivity.
  - intros n ? <-. destruct (n <? 1); [apply Log_Fatal_rel|apply ret_rel; reflexivity].
Qed.

Lemma FreeClient_rel (client : ptr) :
  M_rel eq (FreeClient client) (FreeClient client).
Proof.
  unfold FreeClient.
  apply (bind_rel wrapper_eqv); [apply load_rel|intros w1 w2 [_ Hu]].
  apply (bind_rel eq); [apply time_Now_rel|intros now ? <-].
  rewrite Hu. destruct (Time_After _ _);
    [apply send_ExhaustedClients_rel|apply send_Clients_rel].
Qed.

Lemma return_to_pool_rel (client : ptr) :
  M_rel eq (return_to_pool client) (return_to_pool client).
Proof.
  unfold return_to_pool.
  apply (bind_rel wrapper_eqv); [apply load_rel|intros w1 w2 [Hpre _]].
  apply (bind_rel eq); [apply slice_rel; exact Hpre|intros pre ? <-].
  apply (bind_rel eq); [apply Log_rel|intros _ _ _]. apply FreeClient_rel.
Qed.

Lemma case_Clients_rel (client : ptr) (c' : chan) :
  M_rel eq (case_Clients client c') (case_Clients client c').
Proof.
  unfold case_Clients.
  apply (bind_rel eq);
    [apply modify_rel; intros; apply set_Clients_eqv; assumption|intros _ _ _].
  apply (bind_rel wrapper_eqv); [apply load_rel|intros w1 w2 [Hpre _]].
  apply (bind_rel eq); [apply slice_rel; exact Hpre|intros pre ? <-].
  apply (bind_rel eq); [apply Log_rel|intros _ _ _]. apply ret_rel. reflexivity.
Qed.

Lemma case_ExhaustedClients_rel (client : ptr) (c' : chan) :
  M_rel eq (case_ExhaustedClients client c') (case_ExhaustedClients client c').
Proof.
  unfold case_ExhaustedClients, time_Until.
  apply (bind_rel eq);
    [apply modify_rel; intros; apply set_ExhaustedClients_eqv; assumption|].
  intros _ _ _.
  apply (bind_rel wrapper_eqv); [apply load_rel|intros w1 w2 [_ Hu]].
  rewrite Hu.
  apply (bind_rel eq).
  { apply (bind_rel eq); [apply time_Now_rel|intros now ? <-].
    apply ret_rel. reflexivity. }
  intros d ? <-.
  apply (bind_rel eq); [apply Log_rel|intros _ _ _].
  apply (bind_rel eq); [apply time_Sleep_rel|intros _ _ _].
  apply ret_rel. reflexivity.
Qed.

Lemma case_default_rel : M_rel eq case_default case_default.
Proof.
  unfold case_default.
  apply (bind_rel eq).
  { apply gets_rel. intros s1 s2 (_ & _ & _ & -> & _). reflexivity. }
  intros n ? <-.
  apply (bind_rel eq); [apply Log_rel|intros _ _ _].
  apply (bind_rel eq).
  { apply gets_rel. intros s1 s2 (_ & _ & _ & _ & -> & _). reflexivity. }
  intros m ? <-.
  apply (bind_rel eq); [apply Log_rel|intros _ _ _].
  apply (bind_rel eq); [apply time_Sleep_rel|intros _ _ _].
  apply ret_rel. reflexivity.
Qed.

Lemma poll_rel (pick : bool) : M_rel eq (poll pick) (poll pick).
Proof.
  unfold poll.
  apply (bind_rel eq).
  { apply gets_rel. intros s1 s2 (_ & _ & _ & -> & _). reflexivity. }
  intros ready ? <-.
  apply (bind_rel eq).
  { apply gets_rel. intros s1 s2 (_ & _ & _ & _ & -> & _). reflexivity. }
  intros exhausted ? <-.
  destruct ready as [[c1 r1]|], exhausted as [[c2 r2]|];
    try destruct pick;
    auto using case_Clients_rel, case_ExhaustedClients_rel, case_default_rel.
Qed.

Lemma GetClient_rel (picks : list bool) :
  M_rel eq (GetClient picks) (GetClient picks).
Proof.
  induction picks as [|pick picks IH]; [apply ret_rel; reflexivity|].
  cbn [GetClient].
  apply (bind_rel eq); [apply poll_rel|intros r ? <-].
  destruct r as [client|client|]; [apply ret_rel; reflexivity| |exact IH].
  apply (bind_rel eq); [apply return_to_pool_rel|intros _ _ _]. exact IH.
Qed.

(** ** Proofs: every string argument of a log line has ten bytes *)

Lemma length_substring (n : nat) :
  forall t, (n <= String.length t)%nat -> String.length (substring 0 n t) = n.
Proof.
  induction n as [|n IH]; intros [|c t] Hlen; cbn in *; try lia.
  f_equal. apply IH. lia.
Qed.

Lemma M_post_final {A} (Q : A -> Prop) (m : M A) (s : Session) :
  M_post Q m -> log_ok s -> log_ok (final (m s)).
Proof. intros Hm Hs. specialize (Hm s Hs). destruct (m s); cbn; tauto. Qed.

Lemma bind_post {A B} (Q : A -> Prop) (Q' : B -> Prop) (m : M A) (k : A -> M B) :
  M_post Q m -> (forall a, Q a -> M_post Q' (k a)) -> M_post Q' (bind m k).
Proof.
  intros Hm Hk s Hs. unfold bind. specialize (Hm s Hs).
  destruct (m s); try exact Hm. destruct Hm as [Ha Hs']. exact (Hk _ Ha _ Hs').
Qed.

Lemma ret_post {A} (Q : A -> Prop) (a : A) : Q a -> M_post Q (ret a).
Proof. intros Ha s Hs. cbn. auto. Qed.

Lemma weaken_post {A} (Q Q' : A -> Prop) (m : M A) :
  (forall a, Q a -> Q' a) -> M_post Q m -> M_post Q' m.
Proof.
  intros HQ Hm s Hs. specialize (Hm s Hs). destruct (m s); try exact Hm.
  destruct Hm; auto.
Qed.

Lemma gets_post {A} (f : Session -> A) : M_post (fun _ => True) (gets f).
Proof. intros s Hs. cbn. auto. Qed.

Lemma quiet_post (f : Session -> Session) :
  (forall s, log_of (trace (f s)) = log_of (trace s)) ->
  M_post (fun _ => True) (modify f).
Proof. intros Hf s Hs. cbn. unfold log_ok. rewrite Hf. auto. Qed.

Lemma log_ok_emit_log (l : logline) (s : Session) :
  prefix_only l -> log_ok s -> log_ok (emit (EvLog l) s).
Proof.
  intros Hl Hs. unfold log_ok. cbn. rewrite log_of_app.
  apply Forall_app. split; [exact Hs|]. repeat constructor. exact Hl.
Qed.

Lemma Log_post (l : level) (format : string) (a : list arg) :
  Forall ten_bytes a -> M_post (fun _ => True) (Log l format a).
Proof. intros Ha s Hs. cbn. split; [exact I|]. apply log_ok_emit_log; assumption. Qed.

Lemma slice_post (t : string) :
  M_post (fun pre => String.length pre = 10%nat) (slice t 10).
Proof.
  intros s Hs. unfold slice, slice_to.
  destruct (Nat.leb_spec 10 (String.length t)); cbn; [|exact Hs].
  split; [apply length_substring; assumption|exact Hs].
Qed.

Lemma load_post (client : ptr) : M_post (fun _ => True) (load client).
Proof. intros s Hs. unfold load. destruct (heap s !! client); cbn; auto. Qed.

Lemma time_Now_post : M_post (fun _ => True) time_Now.
Proof. intros s Hs. cbn. auto. Qed.

Lemma send_Clients_post (p : ptr) : M_post (fun _ => True) (send_Clients p).
Proof.
  intros s Hs. unfold send_Clients. destruct (chan_send (Clients s) p); cbn; auto.
Qed.

Lemma send_ExhaustedClients_post (p : ptr) :
  M_post (fun _ => True) (send_ExhaustedClients p).
Proof.
  intros s Hs. unfold send_ExhaustedClients.
  destruct (chan_send (ExhaustedClients s) p); cbn; auto.
Qed.

Lemma new_wrapper_post (w : GitHubClientWrapper) :
  M_post (fun _ => True) (new_wrapper w).
Proof. intros s Hs. cbn. auto. Qed.

Lemma client_Users_Get_post (token : string) :
  M_post (fun _ => True) (client_Users_Get token).
Proof.
  intros s Hs. unfold client_Users_Get, log_ok. cbn.
  rewrite log_of_app, app_nil_r. auto.
Qed.

Lemma seed_post (n : nat) (client token : string) :
  M_post (fun _ => True) (seed n client token).
Proof.
  induction n as [|n IH]; [apply ret_post; exact I|]. cbn [seed].
  eapply bind_post; [apply time_Now_post|intros now _].
  eapply bind_post; [apply new_wrapper_post|intros p _].
  eapply bind_post; [apply send_Clients_post|intros _ _]. exact IH.
Qed.

Lemma range_tokens_post (tokens : list string) :
  M_post (fun _ => True) (range_tokens tokens).
Proof.
  induction tokens as [|token rest IH]; [apply ret_post; exact I|].
  cbn [range_tokens].
  eapply bind_post; [apply client_Users_Get_post|intros err _].
  destruct err as [[msg|msg]|].
  - eapply bind_post; [apply slice_post|intros pre Hpre].
    eapply bind_post; [|intros _ _; exact IH].
    apply Log_post. repeat constructor. exact Hpre.
  - eapply bind_post; [apply gets_post|intros threads _].
    eapply bind_post; [apply seed_post|intros _ _; exact IH].
  - eapply bind_post; [apply gets_post|intros threads _].
    eapply bind_post; [apply seed_post|intros _ _; exact IH].
Qed.

Lemma InitGitHubClients_post : M_post (fun _ => True) InitGitHubClients.
Proof.
  unfold InitGitHubClients.
  eapply bind_post; [apply gets_post|intros local _].
  destruct (Z.of_nat (String.length local) <=? 0); [|apply ret_post; exact I].
  eapply bind_post; [apply gets_post|intros threads _].
  eapply bind_post; [apply gets_post|intros tokens _].
  assert (Hmake : forall size, M_post (fun _ => True) (make_chan size)).
  { intros size s Hs. unfold make_chan. destruct (size <? 0); cbn; auto. }
  eapply bind_post; [apply Hmake|intros c _].
  eapply bind_post; [apply quiet_post; reflexivity|intros _ _].
  eapply bind_post; [apply Hmake|intros e _].
  eapply bind_post; [apply quiet_post; reflexivity|intros _ _].
  eapply bind_post; [apply range_tokens_post|intros _ _].
  eapply bind_post; [apply gets_post|intros n _].
  destruct (n <? 1); [|apply ret_post; exact I].
  intros s Hs. cbn. apply log_ok_emit_log; [constructor|exact Hs].
Qed.

Lemma FreeClient_post (client : ptr) : M_post (fun _ => True) (FreeClient client).
Proof.
  unfold FreeClient.
  eapply bind_post; [apply load_post|intros w _].
  eapply bind_post; [apply time_Now_post|intros now _].
  destruct (Time_After _ _);
    [apply send_ExhaustedClients_post|apply send_Clients_post].
Qed.

Lemma time_Sleep_post (d : Duration) : M_post (fun _ => True) (time_Sleep d).
Proof.
  intros s Hs. unfold time_Sleep, modify, log_ok. cbn.
  rewrite log_of_app, app_nil_r. auto.
Qed.

Lemma poll_post (pick : bool) : M_post (fun _ => True) (poll pick).
Proof.
  assert (Hready : forall client c', M_post (fun _ => True) (case_Clients client c')).
  { intros client c'. unfold case_Clients.
    eapply bind_post; [apply quiet_post; reflexivity|intros _ _].
    eapply bind_post; [apply load_post|intros w _].
    eapply bind_post; [apply slice_post|intros pre Hpre].
    eapply bind_post; [|intros _ _; apply ret_post; exact I].
    apply Log_post. repeat constructor. exact Hpre. }
  assert (Hexh : forall client c',
             M_post (fun _ => True) (case_ExhaustedClients client c')).
  { intros client c'. unfold case_ExhaustedClients, time_Until.
    eapply bind_post; [apply quiet_post; reflexivity|intros _ _].
    eapply bind_post; [apply load_post|intros w _].
    eapply bind_post; [|intros d _].
    { eapply bind_post; [apply time_Now_post|intros now _].
      apply (ret_post (fun _ => True)). exact I. }
    eapply bind_post; [apply Log_post; repeat constructor|intros _ _].
    eapply bind_post; [apply time_Sleep_post|intros _ _].
    apply ret_post. exact I. }
  assert (Hdef : M_post (fun _ => True) case_default).
  { unfold case_default.
    eapply bind_post; [apply gets_post|intros n _].
    eapply bind_post; [apply Log_post; repeat constructor|intros _ _].
    eapply bind_post; [apply gets_post|intros m _].
    eapply bind_post; [apply Log_post; repeat constructor|intros _ _].
    eapply bind_post; [apply time_Sleep_post|intros _ _].
    apply ret_post. exact I. }
  unfold poll.
  eapply bind_post; [apply gets_post|intros ready _].
  eapply bind_post; [apply gets_post|intros exhausted _].
  destruct ready as [[c1 r1]|], exhausted as [[c2 r2]|]; try destruct pick; auto.
Qed.

Lemma return_to_pool_post (client : ptr) :
  M_post (fun _ => True) (return_to_pool client).
Proof.
  unfold return_to_pool.
  eapply bind_post; [apply load_post|intros w _].
  eapply bind_post; [apply slice_post|intros pre Hpre].
  eapply bind_post; [|intros _ _; apply FreeClient_post].
  apply Log_post. repeat constructor. exact Hpre.
Qed.

Lemma GetClient_post (picks : list bool) :
  M_post (fun _ => True) (GetClient picks).
Proof.
  induction picks as [|pick picks IH]; [apply ret_post; exact I|].
  cbn [GetClient].
  eapply bind_post; [apply poll_post|intros r _].
  destruct r as [client|client|]; [apply ret_post; exact I| |exact IH].
  eapply bind_post; [apply return_to_pool_post|intros _ _; exact IH].
Qed.

Lemma long_token_not_logged (s : Session) (token : string) (l : logline) :
  log_ok s ->
  (10 < String.length token)%nat ->
  In l (log_of (trace s)) ->
  ~ In (AStr token) (args l).
Proof.
  intros Hs Hlong Hl Hin.
  unfold log_ok in Hs. rewrite Forall_forall in Hs.
  specialize (Hs l (proj2 (list_elem_of_In _ _) Hl)).
  unfold prefix_only in Hs. rewrite Forall_forall in Hs.
  specialize (Hs _ (proj2 (list_elem_of_In _ _) Hin)). cbn in Hs. lia.
Qed.

(** C9 (amended): the log shows of a token only its first ten bytes.  Two
    sessions whose tokens all have at least ten bytes, that agree on the
    first ten bytes of each token and on the answer of the remote service
    to it, and agree on everything else, produce the same log lines in
    [InitGitHubClients], in [GetClient] and in [FreeClient], whatever the
    bytes of the tokens after the tenth, and the runs end the same way.
    Every string argument these functions log has exactly ten bytes, so a
    token longer than ten bytes is never an argument of a log line. *)
Theorem log_shows_token_prefix_only (s1 s2 : Session) :
  session_eqv s1 s2 ->
  log_ok s1 ->
  log_of (trace (final (InitGitHubClients s1))) =
  log_of (trace (final (InitGitHubClients s2))) /\
  (forall picks,
     log_of (trace (final (GetClient picks s1))) =
     log_of (trace (final (GetClient picks s2)))) /\
  (forall client,
     log_of (trace (final (FreeClient client s1))) =
     log_of (trace (final (FreeClient client s2)))) /\
  result_rel eq (InitGitHubClients s1) (InitGitHubClients s2) /\
  (forall picks, result_rel eq (GetClient picks s1) (GetClient picks s2)) /\
  never_in_full (final (InitGitHubClients s1)) /\
  (forall picks, never_in_full (final (GetClient picks s1))) /\
  (forall client, never_in_full (final (FreeClient client s1))).
Proof.
  intros Hs Hok.
  split; [apply (result_rel_final eq), InitGitHubClients_rel, Hs|].
  split; [intros picks; apply (result_rel_final eq), GetClient_rel, Hs|].
  split; [intros client; apply (result_rel_final eq), FreeClient_rel, Hs|].
  split; [apply InitGitHubClients_rel, Hs|].
  split; [intros picks; apply GetClient_rel, Hs|].
  split; [|split].
  - intros token l. apply long_token_not_logged.
    apply (M_post_final _ _ _ InitGitHubClients_post Hok).
  - intros picks token l. apply long_token_not_logged.
    apply (M_post_final _ _ _ (GetClient_post picks) Hok).
  - intros client token l. apply long_token_not_logged.
    apply (M_post_final _ _ _ (FreeClient_post client) Hok).
Qed.

(** ** Proofs: when seeding blocks *)

Lemma seed_blocks (n : nat) (client token : string) :
  forall (s : Session) (c : chan),
    Clients s = Some c ->
    Z.of_nat (length (buf c)) <= cap c < Z.of_nat (length (buf c)) + Z.of_nat n ->
    exists s', seed n client token s = Block s' /\
               capacity (Clients s') = cap c /\
               Z.of_nat (length (queue (Clients s'))) = cap c.
Proof.
  induction n as [|n IH]; intros s c Hc Hcap; [lia|].
  cbn [seed]. rewrite bind_time_Now. unfold bind at 1. unfold new_wrapper.
  unfold bind at 1. unfold send_Clients. cbn [Clients set_heap tick].
  rewrite Hc. unfold chan_send.
  destruct (Z.ltb_spec (Z.of_nat (length (buf c))) (cap c)) as [Hroom|Hfull].
  - apply (IH _ {| cap := cap c; buf := buf c ++ [length (heap s)] |});
      [reflexivity|]. cbn. rewrite length_app. cbn. lia.
  - eexists. split; [reflexivity|]. cbn. rewrite Hc. cbn. lia.
Qed.

Lemma range_tokens_blocks (tokens : list string) :
  forall (s : Session) (c : chan),
    Clients s = Some c ->
    Forall loggable tokens ->
    Z.of_nat (length (buf c)) <= cap c
      < Z.of_nat (length (buf c))
        + Z.of_nat (accepted_count tokens * rounds (Threads s)) ->
    exists s', range_tokens tokens s = Block s' /\
               capacity (Clients s') = cap c /\
               Z.of_nat (length (queue (Clients s'))) = cap c.
Proof.
  induction tokens as [|token rest IH]; intros s c Hc Hlog Hcap.
  - cbn in Hcap. lia.
  - inversion Hlog as [|? ? Htok Hrest]; subst.
    rewrite accepted_count_cons in Hcap.
    destruct (accepted token) eqn:Hacc.
    + rewrite range_tokens_seed by assumption. unfold bind.
      destruct (Z_le_gt_dec (Z.of_nat (length (buf c))
                             + Z.of_nat (rounds (Threads s))) (cap c))
        as [Hfit|Hnofit].
      * erewrite seed_returns; [|exact Hc|exact Hfit].
        apply (IH _ {| cap := cap c;
                       buf := buf c ++ seq (length (heap s)) (rounds (Threads s)) |});
          [reflexivity|assumption|].
        cbn. rewrite length_app, length_seq. lia.
      * destruct (seed_blocks (rounds (Threads s)) token token
                    (emit (EvUsersGet token) s) c Hc) as (s' & -> & Hs');
          [lia|]. eauto.
    + destruct (accepted_false _ Hacc) as [msg Hget].
      rewrite (range_tokens_skip _ _ msg) by auto.
      apply (IH _ c); [exact Hc|assumption|exact Hcap].
Qed.

(** [InitGitHubClients] never returns when the pool is larger than the
    capacity it gives the ready channel: a send of the inner loop finds the
    channel full, and nothing receives from it during initialisation. *)
Lemma Init_blocks (s : Session) :
  Local s = EmptyString ->
  0 <= chanSize s ->
  Forall loggable (GitHubAccessTokens s) ->
  chanSize s < Z.of_nat (pool_size s) ->
  exists s', InitGitHubClients s = Block s' /\
             capacity (Clients s') = chanSize s /\
             Z.of_nat (length (queue (Clients s'))) = chanSize s.
Proof.
  intros Hl Hsize Hlog Hbig. rewrite Init_made by assumption. unfold bind at 1.
  destruct (range_tokens_blocks (GitHubAccessTokens s) (made s)
              {| cap := chanSize s; buf := [] |} eq_refl Hlog)
    as (s' & -> & Hs'); [cbn; unfold pool_size in Hbig; lia|].
  exists s'. split; [reflexivity|exact Hs'].
Qed.

Lemma accepted_count_all (tokens : list string) :
  Forall (fun t => accepted t = true) tokens ->
  accepted_count tokens = length tokens.
Proof.
  induction 1 as [|token rest Ht _ IH]; [reflexivity|].
  rewrite accepted_count_cons, Ht, IH. reflexivity.
Qed.

(** With a positive worker count and tokens that all validate, the pool does
    not fit as soon as there are more tokens than workers. *)
Lemma pool_exceeds_capacity (s : Session) :
  0 < Threads s ->
  Threads s * (Z.of_nat (length (GitHubAccessTokens s)) + 1) < 2 ^ 63 ->
  Forall (fun t => accepted t = true) (GitHubAccessTokens s) ->
  Threads s < Z.of_nat (length (GitHubAccessTokens s)) ->
  chanSize s < Z.of_nat (pool_size s).
Proof.
  intros Hw Hno Hall Hmore. rewrite chanSize_exact by lia.
  unfold pool_size. rewrite (accepted_count_all _ Hall).
  rewrite rounds_nonneg by lia. nia.
Qed.

(** The capacity is at least [W * (N + 1)] for [N] the number of accepted
    tokens. *)
Lemma chanSize_lower_bound (s : Session) :
  0 <= Threads s ->
  Threads s * (Z.of_nat (length (GitHubAccessTokens s)) + 1) < 2 ^ 63 ->
  Threads s * (Z.of_nat (accepted_count (GitHubAccessTokens s)) + 1)
  <= chanSize s.
Proof.
  intros Hw Hno. rewrite chanSize_exact by lia.
  pose proof (length_filter (fun t => accepted t = true) (GitHubAccessTokens s)).
  unfold accepted_count. nia.
Qed.

(** ** Proofs: the select of GetClient *)

(** When both channels buffer a handle and the select picks its second
    case, the round takes the exhausted handle and sleeps on it; the ready
    handle stays where it is. *)
Lemma select_may_draw_exhausted (s : Session) (ready1 exhausted1 : ptr)
      (c1 c2 : chan) (w : GitHubClientWrapper) :
  chan_recv (Clients s) = Some (ready1, c1) ->
  chan_recv (ExhaustedClients s) = Some (exhausted1, c2) ->
  heap s !! exhausted1 = Some w ->
  let d := Time_Sub (RateLimitedUntil w) (clock (ticks s)) in
  exists s', poll false s = Ret (Drew exhausted1) s' /\
             Clients s' = Clients s /\
             trace s' = trace s ++ [EvLog (sleeping_line d); EvSleep d].
Proof.
  intros Hr He Hw d.
  rewrite (poll_exhausted _ _ _ _ He (or_introl eq_refl)).
  rewrite (case_ExhaustedClients_eq _ _ w) by exact Hw.
  eexists. split; [reflexivity|]. cbn. rewrite <- app_assoc. auto.
Qed.

(** When only the ready channel buffers a handle, the round returns it
    whatever the pick, and does not sleep. *)
Lemma ready_first_when_alone (pick : bool) (s : Session) (client : ptr)
      (c' : chan) (w : GitHubClientWrapper) :
  chan_recv (Clients s) = Some (client, c') ->
  chan_recv (ExhaustedClients s) = None ->
  heap s !! client = Some w ->
  (10 <= String.length (Token w))%nat ->
  poll pick s =
  Ret (Returned client)
      (emit (EvLog (using_line (Token w))) (set_Clients (Some c') s)).
Proof.
  intros Hr He Hw Hlen.
  rewrite (poll_ready _ _ _ _ Hr (or_intror He)).
  apply (case_Clients_eq _ _ w); assumption.
Qed.

(** ** Proofs: what the pool never touches *)

Section Keeps.

Variable R : Session -> Session -> Prop.
Hypothesis R_stable : pool_stable R.

Lemma keeps_refl (s : Session) : R s s.
Proof. apply R_stable. Qed.

Lemma keeps_bind {A B} (m : M A) (k : A -> M B) :
  M_keeps R m -> (forall a, M_keeps R (k a)) -> M_keeps R (bind m k).
Proof.
  intros Hm Hk s. unfold bind. specialize (Hm s).
  destruct (m s) as [a s'| | |]; cbn in *; try exact Hm.
  destruct R_stable as (_ & Htrans & _). exact (Htrans _ _ _ Hm (Hk a s')).
Qed.

Lemma keeps_ret {A} (a : A) : M_keeps R (ret a).
Proof. intros s. apply keeps_refl. Qed.

Lemma keeps_gets {A} (f : Session -> A) : M_keeps R (gets f).
Proof. intros s. apply keeps_refl. Qed.

Lemma keeps_load (client : ptr) : M_keeps R (load client).
Proof. intros s. unfold load. destruct (heap s !! client); apply keeps_refl. Qed.

Lemma keeps_slice (t : string) (n : nat) : M_keeps R (slice t n).
Proof. intros s. unfold slice. destruct (slice_to t n); apply keeps_refl. Qed.

Lemma keeps_Log (l : level) (format : string) (a : list arg) :
  M_keeps R (Log l format a).
Proof. intros s. apply R_stable. Qed.

Lemma keeps_Log_Fatal (format : string) (a : list arg) :
  M_keeps R (Log_Fatal format a).
Proof. intros s. apply R_stable. Qed.

Lemma keeps_time_Sleep (d : Duration) : M_keeps R (time_Sleep d).
Proof. intros s. apply R_stable. Qed.

Lemma keeps_time_Now : M_keeps R time_Now.
Proof. intros s. apply R_stable. Qed.

Lemma keeps_set_Clients (c : option chan) : M_keeps R (modify (set_Clients c)).
Proof. intros s. apply R_stable. Qed.

Lemma keeps_set_ExhaustedClients (c : option chan) :
  M_keeps R (modify (set_ExhaustedClients c)).
Proof. intros s. apply R_stable. Qed.

Lemma keeps_send_Clients (p : ptr) : M_keeps R (send_Clients p).
Proof.
  intros s. unfold send_Clients.
  destruct (chan_send (Clients s) p); [apply R_stable|apply keeps_refl].
Qed.

Lemma keeps_send_ExhaustedClients (p : ptr) : M_keeps R (send_ExhaustedClients p).
Proof.
  intros s. unfold send_ExhaustedClients.
  destruct (chan_send (ExhaustedClients s) p); [apply R_stable|apply keeps_refl].
Qed.

Lemma keeps_client_Users_Get (token : string) : M_keeps R (client_Users_Get token).
Proof. intros s. apply R_stable. Qed.

Lemma keeps_make_chan (size : Z) : M_keeps R (make_chan size).
Proof. intros s. unfold make_chan. destruct (size <? 0); apply keeps_refl. Qed.

Lemma keeps_FreeClient (client : ptr) : M_keeps R (FreeClient client).
Proof.
  unfold FreeClient.
  apply keeps_bind; [apply keeps_load|intros w].
  apply keeps_bind; [apply keeps_time_Now|intros now].
  destruct (Time_After _ _);
    [apply keeps_send_ExhaustedClients|apply keeps_send_Clients].
Qed.

Lemma keeps_return_to_pool (client : ptr) : M_keeps R (return_to_pool client).
Proof.
  unfold return_to_pool.
  apply keeps_bind; [apply keeps_load|intros w].
  apply keeps_bind; [apply keeps_slice|intros pre].
  apply keeps_bind; [apply keeps_Log|intros _]. apply keeps_FreeClient.
Qed.

Lemma keeps_poll (pick : bool) : M_keeps R (poll pick).
Proof.
  assert (Hready : forall client c', M_keeps R (case_Clients client c')).
  { intros client c'. unfold case_Clients.
    apply keeps_bind; [apply keeps_set_Clients|intros _].
    apply keeps_bind; [apply keeps_load|intros w].
    apply keeps_bind; [apply keeps_slice|intros pre].
    apply keeps_bind; [apply keeps_Log|intros _]. apply keeps_ret. }
  assert (Hexh : forall client c', M_keeps R (case_ExhaustedClients client c')).
  { intros client c'. unfold case_ExhaustedClients, time_Until.
    apply keeps_bind; [apply keeps_set_ExhaustedClients|intros _].
    apply keeps_bind; [apply keeps_load|intros w].
    apply keeps_bind; [|intros d].
    { apply keeps_bind; [apply keeps_time_Now|intros now]. apply keeps_ret. }
    apply keeps_bind; [apply keeps_Log|intros _].
    apply keeps_bind; [apply keeps_time_Sleep|intros _]. apply keeps_ret. }
  assert (Hdef : M_keeps R case_default).
  { unfold case_default.
    apply keeps_bind; [apply keeps_gets|intros n].
    apply keeps_bind; [apply keeps_Log|intros _].
    apply keeps_bind; [apply keeps_gets|intros m].
    apply keeps_bind; [apply keeps_Log|intros _].
    apply keeps_bind; [apply keeps_time_Sleep|intros _]. apply keeps_ret. }
  unfold poll.
  apply keeps_bind; [apply keeps_gets|intros ready].
  apply keeps_bind; [apply keeps_gets|intros exhausted].
  destruct ready as [[c1 r1]|], exhausted as [[c2 r2]|]; try destruct pick; auto.
Qed.

Lemma keeps_GetClient (picks : list bool) : M_keeps R (GetClient picks).
Proof.
  induction picks as [|pick picks IH]; [apply keeps_ret|]. cbn [GetClient].
  apply keeps_bind; [apply keeps_poll|intros r].
  destruct r as [client|client|]; [apply keeps_ret| |exact IH].
  apply keeps_bind; [apply keeps_return_to_pool|intros _; exact IH].
Qed.

Hypothesis R_alloc : forall s w, R s (set_heap (heap s ++ [w]) s).

Lemma keeps_seed (n : nat) (client token : string) :
  M_keeps R (seed n client token).
Proof.
  induction n as [|n IH]; [apply keeps_ret|]. cbn [seed].
  apply keeps_bind; [apply keeps_time_Now|intros now].
  apply keeps_bind; [intros s; apply R_alloc|intros p].
  apply keeps_bind; [apply keeps_send_Clients|intros _; exact IH].
Qed.

Lemma keeps_range_tokens (tokens : list string) : M_keeps R (range_tokens tokens).
Proof.
  induction tokens as [|token rest IH]; [apply keeps_ret|]. cbn [range_tokens].
  apply keeps_bind; [apply keeps_client_Users_Get|intros err].
  destruct err as [[msg|msg]|].
  - apply keeps_bind; [apply keeps_slice|intros pre].
    apply keeps_bind; [apply keeps_Log|intros _; exact IH].
  - apply keeps_bind; [apply keeps_gets|intros threads].
    apply keeps_bind; [apply keeps_seed|intros _; exact IH].
  - apply keeps_bind; [apply keeps_gets|intros threads].
    apply keeps_bind; [apply keeps_seed|intros _; exact IH].
Qed.

Lemma keeps_InitGitHubClients : M_keeps R InitGitHubClients.
Proof.
  unfold InitGitHubClients.
  apply keeps_bind; [apply keeps_gets|intros local].
  destruct (Z.of_nat (String.length local) <=? 0); [|apply keeps_ret].
  apply keeps_bind; [apply keeps_gets|intros threads].
  apply keeps_bind; [apply keeps_gets|intros tokens].
  apply keeps_bind; [apply keeps_make_chan|intros c].
  apply keeps_bind; [apply keeps_set_Clients|intros _].
  apply keeps_bind; [apply keeps_make_chan|intros e].
  apply keeps_bind; [apply keeps_set_ExhaustedClients|intros _].
  apply keeps_bind; [apply keeps_range_tokens|intros _].
  apply keeps_bind; [apply keeps_gets|intros n].
  destruct (n <? 1); [apply keeps_Log_Fatal|apply keeps_ret].
Qed.

End Keeps.

Lemma same_settings_stable : pool_stable same_settings.
Proof.
  unfold pool_stable, same_settings. repeat split; try reflexivity.
  intros s1 s2 s3 H12 H23. congruence.
Qed.

Lemma same_heap_stable : pool_stable same_heap.
Proof.
  unfold pool_stable, same_heap. repeat split; try reflexivity.
  intros s1 s2 s3 H12 H23. congruence.
Qed.

Lemma heap_grows_stable : pool_stable heap_grows.
Proof.
  unfold pool_stable, heap_grows. repeat split; try reflexivity.
  intros s1 s2 s3 H12 H23. etrans; eassumption.
Qed.

(** X1: the options and the configuration are read-only for the pool.
    However [InitGitHubClients], [GetClient] and [FreeClient] end (return,
    block, panic, exit), the local-mode flag, the worker count and the token
    list of the session are what they were. *)
Theorem settings_are_read_only (s : Session) :
  settings (final (InitGitHubClients s)) = settings s /\
  (forall picks, settings (final (GetClient picks s)) = settings s) /\
  (forall client, settings (final (FreeClient client s)) = settings s).
Proof.
  split; [|split].
  - apply (keeps_InitGitHubClients same_settings same_settings_stable).
    reflexivity.
  - intros picks. apply (keeps_GetClient same_settings same_settings_stable).
  - intros client. apply (keeps_FreeClient same_settings same_settings_stable).
Qed.

(** X2: [GetClient] and [FreeClient] neither allocate a wrapper nor change
    the token or the [RateLimitedUntil] of one, however they end; and
    [InitGitHubClients] only allocates: the wrappers that existed before it
    are still there, unchanged, at the same addresses. *)
Theorem wrappers_are_left_alone (s : Session) :
  (forall picks, heap (final (GetClient picks s)) = heap s) /\
  (forall client, heap (final (FreeClient client s)) = heap s) /\
  (forall p w, heap s !! p = Some w ->
               heap (final (InitGitHubClients s)) !! p = Some w).
Proof.
  split; [|split].
  - intros picks. apply (keeps_GetClient same_heap same_heap_stable).
  - intros client. apply (keeps_FreeClient same_heap same_heap_stable).
  - intros p w Hp.
    assert (Hpre : heap s `prefix_of` heap (final (InitGitHubClients s))).
    { apply (keeps_InitGitHubClients heap_grows heap_grows_stable).
      intros s0 w0. cbn. apply prefix_app_r. reflexivity. }
    eapply prefix_lookup_Some; eassumption.
Qed.

(** ** Proofs: how InitGitHubClients ends *)

Lemma pool_size_zero (s : Session) :
  0 <= Threads s ->
  pool_size s = 0%nat <-> accepted_count (GitHubAccessTokens s) = 0%nat.
Proof. intros Hw. unfold pool_size. rewrite (rounds_nonneg _ Hw). nia. Qed.

Lemma tokens_fit_completes (s : Session) :
  0 <= Threads s ->
  Z.of_nat (length (GitHubAccessTokens s)) <= Threads s ->
  Threads s * (Z.of_nat (length (GitHubAccessTokens s)) + 1) < 2 ^ 63 ->
  Forall loggable (GitHubAccessTokens s) ->
  completes s.
Proof.
  intros Hw Hfew Hno Hlog. unfold completes.
  rewrite chanSize_exact by assumption.
  split; [nia|]. split; [exact Hlog|].
  unfold pool_size, accepted_count. rewrite (rounds_nonneg _ Hw).
  pose proof (length_filter (fun t => accepted t = true) (GitHubAccessTokens s)).
  nia.
Qed.

(** X3: with a non-negative worker count and no more tokens than workers,
    [InitGitHubClients] neither blocks nor panics (every rejected token having
    the ten bytes its warning prints): it returns the seeded pool when at
    least one token is accepted, and ends in the fatal exit when none is. *)
Theorem init_ends_when_tokens_fit (s : Session) :
  Local s = EmptyString ->
  0 <= Threads s ->
  Z.of_nat (length (GitHubAccessTokens s)) <= Threads s ->
  Threads s * (Z.of_nat (length (GitHubAccessTokens s)) + 1) < 2 ^ 63 ->
  Forall loggable (GitHubAccessTokens s) ->
  InitGitHubClients s =
  if (accepted_count (GitHubAccessTokens s) =? 0)%nat
  then Exit (emit (EvLog fatal_line) (seeded s))
  else Ret tt (seeded s).
Proof.
  intros Hl Hw Hfew Hno Hlog.
  rewrite (Init_completes s Hl (tokens_fit_completes s Hw Hfew Hno Hlog)).
  pose proof (pool_size_zero s Hw) as Hz.
  destruct (Nat.eqb_spec (pool_size s) 0) as [E|E],
           (Nat.eqb_spec (accepted_count (GitHubAccessTokens s)) 0) as [E'|E'];
    try reflexivity; tauto.
Qed.

(** X4: when the channels can be made and every rejected token has the ten
    bytes its warning prints, [InitGitHubClients] blocks exactly when the
    handles to seed outnumber the capacity it gave the ready channel; it
    then blocks with that channel full. *)
Theorem init_blocks_iff_pool_exceeds_capacity (s : Session) :
  Local s = EmptyString ->
  0 <= chanSize s ->
  Forall loggable (GitHubAccessTokens s) ->
  (exists s', InitGitHubClients s = Block s') <->
  chanSize s < Z.of_nat (pool_size s).
Proof.
  intros Hl Hsize Hlog. split.
  - intros [s' Hblock].
    destruct (Z_lt_le_dec (chanSize s) (Z.of_nat (pool_size s))) as [|Hfit];
      [assumption|].
    rewrite (Init_completes s Hl (conj Hsize (conj Hlog Hfit))) in Hblock.
    destruct (pool_size s =? 0)%nat; discriminate.
  - intros Hbig. destruct (Init_blocks s Hl Hsize Hlog Hbig) as (s' & Hs' & _).
    eauto.
Qed.

(** X5: a negative worker count makes [InitGitHubClients] panic in [make],
    before any channel is set and before any token is validated: the
    session is left as it was. *)
Theorem init_panics_on_negative_threads (s : Session) :
  Local s = EmptyString ->
  Threads s < 0 ->
  - 2 ^ 63 <= Threads s * (Z.of_nat (length (GitHubAccessTokens s)) + 1) ->
  InitGitHubClients s = Panic s.
Proof.
  intros Hl Hneg Hno. apply Init_panics_on_size; [exact Hl|].
  unfold chanSize. rewrite wrap64_small; nia.
Qed.

Lemma requests_of_validation (tokens : list string) :
  requests_of (validation_events tokens) = tokens.
Proof.
  induction tokens as [|token rest IH]; [reflexivity|].
  cbn [validation_events requests_of].
  destruct (Users_Get token) as [[msg|msg]|]; cbn; rewrite IH; reflexivity.
Qed.

Lemma log_of_validation (tokens : list string) :
  log_of (validation_events tokens) = warnings tokens.
Proof.
  induction tokens as [|token rest IH]; [reflexivity|].
  cbn [validation_events log_of warnings flat_map].
  destruct (Users_Get token) as [[msg|msg]|]; cbn; rewrite IH; reflexivity.
Qed.

(** X6: when the loop runs to its end, [InitGitHubClients] has sent exactly
    one validation request per configured token, in the order of the
    configuration, and has logged exactly one warning per token answered
    with an error response, in that order, followed by the fatal line when
    the pool is empty, and nothing else. *)
Theorem init_validates_each_token_once (s : Session) :
  Local s = EmptyString ->
  completes s ->
  let s' := final (InitGitHubClients s) in
  requests_of (trace s') = requests_of (trace s) ++ GitHubAccessTokens s /\
  log_of (trace s') =
    log_of (trace s) ++ warnings (GitHubAccessTokens s)
    ++ (if (pool_size s =? 0)%nat then [fatal_line] else []).
Proof.
  intros Hl Hc s'. subst s'. rewrite (Init_completes s Hl Hc).
  destruct (pool_size s =? 0)%nat; cbn [final emit seeded trace];
    rewrite ?requests_of_app, ?log_of_app, requests_of_validation,
      log_of_validation; cbn; rewrite ?app_nil_r, <- ?app_assoc; auto.
Qed.

(** ** Proofs: rounds of GetClient *)

Lemma chan_recv_None (c : option chan) : queue c = [] -> chan_recv c = None.
Proof. destruct c as [[k b]|]; cbn; [intros ->|]; reflexivity. Qed.

Lemma chan_recv_cons (c : option chan) (ch : chan) (p : ptr) (rest : list ptr) :
  c = Some ch -> buf ch = p :: rest ->
  chan_recv c = Some (p, {| cap := cap ch; buf := rest |}).
Proof. intros -> Hb. cbn. rewrite Hb. reflexivity. Qed.

Lemma chan_len_empty (c : option chan) : queue c = [] -> chan_len c = 0.
Proof. destruct c as [[k b]|]; cbn; [intros ->|]; reflexivity. Qed.

(** X7: when the exhausted channel buffers nothing, [GetClient] returns in
    its first round the handle that has been longest in the ready channel,
    whatever the select would pick: it takes it off the channel, logs the
    first ten bytes of its token, and neither reads the clock, nor sleeps,
    nor touches the exhausted channel. *)
Theorem GetClient_returns_oldest_ready (s : Session) (pick : bool)
        (picks : list bool) (ready : chan) (client : ptr) (rest : list ptr)
        (w : GitHubClientWrapper) :
  Clients s = Some ready ->
  buf ready = client :: rest ->
  queue (ExhaustedClients s) = [] ->
  heap s !! client = Some w ->
  (10 <= String.length (Token w))%nat ->
  GetClient (pick :: picks) s =
  Ret (Some client)
      (emit (EvLog (using_line (Token w)))
            (set_Clients (Some {| cap := cap ready; buf := rest |}) s)).
Proof.
  intros Hr Hb He Hw Hlen. cbn [GetClient]. unfold bind at 1.
  rewrite (ready_first_when_alone pick s client {| cap := cap ready; buf := rest |} w);
    auto using chan_recv_cons, chan_recv_None.
Qed.

Lemma case_default_eq (s : Session) :
  queue (Clients s) = [] ->
  queue (ExhaustedClients s) = [] ->
  case_default s =
  Ret Retry (emit (EvSleep (Millisecond * 1000))
               (emit (EvLog {| lvl := DEBUG; fmt := "Exhausted Clients: %d";
                               args := [AInt 0] |})
                  (emit (EvLog {| lvl := DEBUG; fmt := "Available Clients: %d";
                                  args := [AInt 0] |}) s))).
Proof.
  intros Hr He. unfold case_default.
  rewrite bind_gets, (chan_len_empty _ Hr). unfold Log_Debug, Log.
  rewrite bind_modify, bind_gets. cbn [ExhaustedClients emit].
  rewrite (chan_len_empty _ He). reflexivity.
Qed.

(** X8: while both channels are empty (or nil, as in local mode)
    [GetClient] does not return: each round logs the two occupancies, both
    zero, and sleeps for a second, and after any number of rounds the
    channels, the wrappers and the clock readings are as before. *)
Theorem GetClient_spins_on_empty_pool (picks : list bool) :
  forall s : Session,
    queue (Clients s) = [] ->
    queue (ExhaustedClients s) = [] ->
    exists s',
      GetClient picks s = Ret None s' /\
      Clients s' = Clients s /\
      ExhaustedClients s' = ExhaustedClients s /\
      heap s' = heap s /\
      ticks s' = ticks s /\
      trace s' = trace s ++ idle_rounds (length picks).
Proof.
  induction picks as [|pick picks IH]; intros s Hr He.
  - exists s. cbn. rewrite app_nil_r. repeat split; reflexivity.
  - cbn [GetClient]. unfold bind at 1.
    rewrite (poll_default _ _ (chan_recv_None _ Hr) (chan_recv_None _ He)).
    rewrite (case_default_eq _ Hr He).
    match goal with |- context [GetClient picks ?t] =>
      destruct (IH t Hr He) as (s' & Hrun & Hc & Hx & Hh & Ht & Htr) end.
    exists s'. rewrite Hrun, Hc, Hx, Hh, Ht, Htr. cbn.
    rewrite <- !app_assoc. repeat split; reflexivity.
Qed.

(** X9: a goroutine that finds the ready channel empty and a handle in the
    exhausted channel draws that handle, logs the warning, sleeps for its
    [RateLimitedUntil] minus the clock, and hands the handle to
    [FreeClient]; when the clock has by then reached the limit the handle
    goes to the ready channel and the next round returns it (the select
    having no other choice, or picking its first case). *)
Theorem GetClient_wakes_exhausted_handle (s : Session) (pick1 pick2 : bool)
        (picks : list bool) (ready exhausted : chan) (client : ptr)
        (rest : list ptr) (w : GitHubClientWrapper) :
  Clients s = Some ready ->
  buf ready = [] ->
  0 < cap ready ->
  ExhaustedClients s = Some exhausted ->
  buf exhausted = client :: rest ->
  heap s !! client = Some w ->
  (10 <= String.length (Token w))%nat ->
  RateLimitedUntil w <= clock (S (ticks s)) ->
  rest = [] \/ pick2 = true ->
  let d := Time_Sub (RateLimitedUntil w) (clock (ticks s)) in
  exists s',
    GetClient (pick1 :: pick2 :: picks) s = Ret (Some client) s' /\
    Clients s' = Some {| cap := cap ready; buf := [] |} /\
    ExhaustedClients s' = Some {| cap := cap exhausted; buf := rest |} /\
    heap s' = heap s /\
    ticks s' = S (S (ticks s)) /\
    trace s' = trace s ++ [ EvLog (sleeping_line d); EvSleep d;
                            EvLog (returning_line (Token w));
                            EvLog (using_line (Token w)) ].
Proof.
  intros Hr Hrb Hcap He Heb Hw Hlen Hlim Hpick d.
  cbn [GetClient]. unfold bind at 1.
  rewrite (poll_exhausted pick1 client {| cap := cap exhausted; buf := rest |} s);
    [|eauto using chan_recv_cons
     |right; apply chan_recv_None; rewrite Hr; exact Hrb].
  rewrite (case_ExhaustedClients_eq _ _ w) by exact Hw. fold d.
  unfold bind at 1.
  rewrite (return_to_pool_eq _ w) by (cbn; assumption).
  rewrite (FreeClient_eq _ w) by (cbn; assumption).
  cbn [ticks emit tick set_ExhaustedClients]. unfold Time_After.
  destruct (Z.ltb_spec (clock (S (ticks s))) (RateLimitedUntil w)) as [|_]; [lia|].
  rewrite (send_Clients_room _ ready) by (cbn; rewrite ?Hrb; cbn; auto; lia).
  rewrite Hrb. cbn [app]. unfold bind at 1.
  match goal with |- context [poll pick2 ?t] =>
    rewrite (poll_ready pick2 client {| cap := cap ready; buf := [] |} t)
  end; [|reflexivity|].
  - rewrite (case_Clients_eq _ _ w) by (cbn; assumption).
    eexists. split; [reflexivity|]. cbn. rewrite <- !app_assoc.
    repeat split; reflexivity.
  - destruct Hpick as [-> | ->]; [right; reflexivity|left; reflexivity].
Qed.

(** ** Proofs: FreeClient in use *)

(** X10: in a pool that [InitGitHubClients] has returned, whatever the
    goroutines have done since, a goroutine that holds a handle is never
    kept waiting by [FreeClient]: the call returns, because the channel it
    sends to always has room for a handle that is out of the channels. *)
Theorem release_never_blocks (s s0 s' : Session) (n : nat)
        (gs : list goroutine) (i : nat) (g : goroutine) (client : ptr) :
  Local s = EmptyString ->
  completes s ->
  InitGitHubClients s = Ret tt s0 ->
  rtc step (s0, replicate n Idle) (s', gs) ->
  gs !! i = Some g ->
  In client (held g) ->
  exists s'', FreeClient client s' = Ret tt s''.
Proof.
  intros Hl Hc Hinit Hsteps Hi Hheld.
  assert (Hs0 : s0 = seeded s).
  { destruct (Init_final s Hl Hc) as [[_ Hret]|[_ Hexit]]; congruence. }
  subst s0.
  exact (free_never_blocks _ _ _ _ _ _
           (rtc_conserved _ _ _ Hsteps (seeded_conserved s n Hc)) Hi Hheld).
Qed.

(** X11: drawing the oldest ready handle and freeing it while it is not
    rate limited puts it at the back of the ready channel: the channel is
    rotated by one, and the exhausted channel and the wrappers are as
    before. *)
Theorem acquire_release_rotates_ready (s : Session) (pick : bool)
        (picks : list bool) (ready : chan) (client : ptr) (rest : list ptr)
        (w : GitHubClientWrapper) :
  Clients s = Some ready ->
  buf ready = client :: rest ->
  Z.of_nat (length (buf ready)) <= cap ready ->
  queue (ExhaustedClients s) = [] ->
  heap s !! client = Some w ->
  (10 <= String.length (Token w))%nat ->
  RateLimitedUntil w <= clock (ticks s) ->
  exists s1 s2,
    GetClient (pick :: picks) s = Ret (Some client) s1 /\
    FreeClient client s1 = Ret tt s2 /\
    Clients s2 = Some {| cap := cap ready; buf := rest ++ [client] |} /\
    ExhaustedClients s2 = ExhaustedClients s /\
    heap s2 = heap s.
Proof.
  intros Hr Hb Hcap He Hw Hlen Hlim.
  rewrite (GetClient_returns_oldest_ready s pick picks ready client rest w)
    by assumption.
  eexists. eexists. split; [reflexivity|].
  rewrite (FreeClient_eq _ w) by (cbn; assumption).
  cbn [ticks emit set_Clients]. unfold Time_After.
  destruct (Z.ltb_spec (clock (ticks s)) (RateLimitedUntil w)) as [|_]; [lia|].
  rewrite (send_Clients_room _ {| cap := cap ready; buf := rest |});
    [|reflexivity|].
  - cbn. repeat split; reflexivity.
  - cbn. rewrite Hb in Hcap. cbn [length] in Hcap. lia.
Qed.

(** X12: when the channel [FreeClient] chooses for a handle is nil or full,
    the call blocks; it has read the clock once and has changed neither
    channel: the caller still holds the handle. *)
Theorem FreeClient_blocks_when_full (s : Session) (client : ptr)
        (w : GitHubClientWrapper) :
  heap s !! client = Some w ->
  capacity (if Time_After (RateLimitedUntil w) (clock (ticks s))
            then ExhaustedClients s else Clients s)
  <= Z.of_nat (length (queue (if Time_After (RateLimitedUntil w) (clock (ticks s))
                              then ExhaustedClients s else Clients s))) ->
  FreeClient client s = Block (tick s).
Proof.
  intros Hw Hfull. rewrite (FreeClient_eq _ w) by exact Hw.
  destruct (Time_After _ _).
  - unfold send_ExhaustedClients, chan_send. cbn [ExhaustedClients tick].
    destruct (ExhaustedClients s) as [e|]; [|reflexivity]. cbn in Hfull.
    destruct (Z.ltb_spec (Z.of_nat (length (buf e))) (cap e)); [lia|reflexivity].
  - unfold send_Clients, chan_send. cbn [Clients tick].
    destruct (Clients s) as [c|]; [|reflexivity]. cbn in Hfull.
    destruct (Z.ltb_spec (Z.of_nat (length (buf c))) (cap c)); [lia|reflexivity].
Qed.

(** X13: [FreeClient] does not check that the handle is out of the
    channels.  Called twice for the same handle while it is not rate
    limited and the ready channel has room for two, it buffers the handle
    twice, so two later calls of [GetClient] can hand the same handle to two
    goroutines. *)
Theorem double_free_duplicates_handle (s : Session) (client : ptr)
        (w : GitHubClientWrapper) (ready : chan) :
  heap s !! client = Some w ->
  Clients s = Some ready ->
  Z.of_nat (length (buf ready)) + 2 <= cap ready ->
  RateLimitedUntil w <= clock (ticks s) ->
  RateLimitedUntil w <= clock (S (ticks s)) ->
  exists s1 s2,
    FreeClient client s = Ret tt s1 /\
    FreeClient client s1 = Ret tt s2 /\
    queue (Clients s2) = buf ready ++ [client; client] /\
    ~ NoDup (queue (Clients s2)).
Proof.
  intros Hw Hr Hcap Hl1 Hl2.
  rewrite (FreeClient_eq _ w) by exact Hw. unfold Time_After.
  destruct (Z.ltb_spec (clock (ticks s)) (RateLimitedUntil w)) as [|_]; [lia|].
  rewrite (send_Clients_room _ ready) by (cbn; auto; lia).
  eexists. eexists. split; [reflexivity|].
  rewrite (FreeClient_eq _ w) by (cbn; assumption).
  cbn [ticks tick set_Clients]. unfold Time_After.
  destruct (Z.ltb_spec (clock (S (ticks s))) (RateLimitedUntil w)) as [|_]; [lia|].
  rewrite (send_Clients_room _ {| cap := cap ready; buf := buf ready ++ [client] |});
    [|reflexivity|cbn; rewrite length_app; cbn; lia].
  split; [reflexivity|]. cbn. rewrite <- app_assoc. cbn.
  split; [reflexivity|].
  intros Hnd. apply NoDup_app in Hnd. destruct Hnd as (_ & _ & Hnd).
  apply NoDup_cons in Hnd. destruct Hnd as [Hnot _].
  apply Hnot. constructor.
Qed.

(** ** Proofs: InitThreads *)

Lemma InitThreads_eq (NumCPU : Z) (s : Session) :
  InitThreads NumCPU s =
  if Threads s =? 0
  then Ret (wrap64 (NumCPU + 1)) (set_Threads NumCPU s)
  else Ret (wrap64 (Threads s + 1)) s.
Proof.
  unfold InitThreads. rewrite bind_gets.
  destruct (Threads s =? 0) eqn:E; reflexivity.
Qed.

(** X14: [InitThreads] always returns.  A worker count of 0 is replaced by
    the number of CPUs, any other count, a negative one included, is kept;
    so with at least one CPU the count is not 0 afterwards.  Nothing else of
    the session changes, and [runtime.GOMAXPROCS] is asked for one more than
    the resulting count. *)
Theorem InitThreads_resolves_zero (NumCPU : Z) (s : Session) :
  1 <= NumCPU ->
  exists procs s',
    InitThreads NumCPU s = Ret procs s' /\
    Threads s' = (if Threads s =? 0 then NumCPU else Threads s) /\
    Threads s' <> 0 /\
    procs = wrap64 (Threads s' + 1) /\
    s' = set_Threads (Threads s') s.
Proof.
  intros Hcpu. rewrite InitThreads_eq.
  destruct (Z.eqb_spec (Threads s) 0) as [E|E].
  - eexists _, _. split; [reflexivity|]. cbn [Threads set_Threads].
    split; [reflexivity|]. split; [lia|]. split; reflexivity.
  - eexists _, _. split; [reflexivity|].
    split; [reflexivity|]. split; [exact E|]. split; [reflexivity|].
    destruct s; reflexivity.
Qed.

(** X15: the order of the two steps matters.  With the worker count left
    at 0 and a token the loop accepts, [InitGitHubClients] on its own makes
    unbuffered channels and blocks on its first send; run after
    [InitThreads], with at least as many CPUs as tokens, it returns a pool
    of one handle more than CPUs for each accepted token. *)
Theorem InitThreads_before_InitGitHubClients (NumCPU : Z) (s : Session) :
  Local s = EmptyString ->
  Threads s = 0 ->
  Z.of_nat (length (GitHubAccessTokens s)) <= NumCPU ->
  NumCPU * (Z.of_nat (length (GitHubAccessTokens s)) + 1) < 2 ^ 63 ->
  Forall loggable (GitHubAccessTokens s) ->
  accepted_count (GitHubAccessTokens s) <> 0%nat ->
  (exists s', InitGitHubClients s = Block s' /\ queue (Clients s') = []) /\
  exists s',
    bind (InitThreads NumCPU) (fun _ => InitGitHubClients) s = Ret tt s' /\
    Threads s' = NumCPU /\
    length (queue (Clients s')) =
      (accepted_count (GitHubAccessTokens s) * (Z.to_nat NumCPU + 1))%nat /\
    queue (ExhaustedClients s') = [].
Proof.
  intros Hl Hz Hfew Hno Hlog Hacc.
  assert (Hcpu : 0 <= NumCPU) by lia.
  split.
  - assert (Hsize : chanSize s = 0) by (unfold chanSize; rewrite Hz; reflexivity).
    destruct (Init_blocks s Hl) as (s' & Hb & _ & Hlen);
      [lia|exact Hlog| |].
    + rewrite Hsize. unfold pool_size. rewrite Hz.
      change (rounds 0) with 1%nat. lia.
    + exists s'. split; [exact Hb|]. rewrite Hsize in Hlen.
      destruct (queue (Clients s')); [reflexivity|cbn in Hlen; lia].
  - unfold bind. rewrite InitThreads_eq, Hz. cbn [Z.eqb].
    pose (t := set_Threads NumCPU s).
    assert (Hend := init_ends_when_tokens_fit t Hl Hcpu Hfew Hno Hlog).
    fold t. rewrite Hend. cbn [GitHubAccessTokens t set_Threads].
    destruct (Nat.eqb_spec (accepted_count (GitHubAccessTokens s)) 0) as [|_];
      [contradiction|].
    eexists. split; [reflexivity|]. cbn.
    rewrite length_seq. unfold pool_size. cbn.
    rewrite (rounds_nonneg _ Hcpu). fold (accepted_count (GitHubAccessTokens s)).
    repeat split; lia.
Qed.

End PoolProofs.

(** * Examples *)

Lemma pool_of_two_queues :
  queue (Clients pool_of_two) = [0; 1]%nat /\
  queue (ExhaustedClients pool_of_two) = [].
Proof. vm_compute. auto. Qed.

Lemma one_exhausted_queues :
  queue (Clients one_exhausted) = [1%nat] /\
  queue (ExhaustedClients one_exhausted) = [0%nat].
Proof. vm_compute. auto. Qed.

(** C1: two tokens that both validate and one worker.  The capacity of the
    ready channel is [1 * (2 + 1) = 3], the pool has [2 * (1 + 1) = 4]
    handles: the fourth send finds the channel full and
    [InitGitHubClients] blocks, with three handles buffered, the fourth
    wrapper allocated and never enqueued. *)
Theorem seeding_blocks_two_tokens_one_worker :
  let s := new_session "" 1 [token_a; token_b] in
  let r := InitGitHubClients (env := service_accepts_all) s in
  r = Block (final r) /\
  capacity (Clients (final r)) = 3 /\
  queue (Clients (final r)) = [0; 1; 2]%nat /\
  length (heap (final r)) = 4%nat /\
  Threads s * (Z.of_nat (accepted_count (env := service_accepts_all)
                           (GitHubAccessTokens s)) + 1)
  <= capacity (Clients (final r)).
Proof. vm_compute. repeat split; discriminate. Qed.

(** C3: a pool of two handles with handle 1 in the ready channel and
    handle 0 in the exhausted channel.  When the select picks its second
    case the round of [GetClient] takes handle 0 from the exhausted channel
    and sleeps for the hour it is limited for, although the ready channel
    buffers handle 1, which stays there. *)
Theorem exhausted_drawn_while_ready_waits :
  let r := poll (env := service_accepts_all) false one_exhausted in
  queue (Clients one_exhausted) = [1%nat] /\
  queue (ExhaustedClients one_exhausted) = [0%nat] /\
  r = Ret (Drew 0%nat) (final r) /\
  queue (Clients (final r)) = [1%nat] /\
  queue (ExhaustedClients (final r)) = [] /\
  last (trace (final r)) = Some (EvSleep (3600 * Second - Millisecond)).
Proof. vm_compute. repeat split. Qed.

(** C2, counterexample: the remote service cannot be reached, so the
    validation request of the token fails with a transport error; the loop
    does not skip the token, and both handles of the pool are backed by
    it. *)
Lemma unreachable_token_gets_handles :
  let s := new_session "" 1 [token_a] in
  let s' := final (InitGitHubClients (env := service_unreachable) s) in
  InitGitHubClients (env := service_unreachable) s = Ret tt s' /\
  Users_Get (Env := service_unreachable) token_a = Some unreachable /\
  map Token (wrappers_in s' (Clients s')) = [token_a; token_a].
Proof. vm_compute. repeat split. Qed.

(** C4, counterexample: two tokens and two workers; the first token
    validates, the validation request of the second fails with a transport
    error.  One token validated, yet the pool has six handles and not
    [1 * (2 + 1) = 3]. *)
Lemma pool_counts_unvalidated_token :
  let e := service_knows token_a unreachable in
  let s := new_session "" 2 [token_a; token_b] in
  let s' := final (InitGitHubClients (env := e) s) in
  length (filter (fun t => validated (env := e) t = true)
                 (GitHubAccessTokens s)) = 1%nat /\
  InitGitHubClients (env := e) s = Ret tt s' /\
  length (queue (Clients s')) = 6%nat /\
  length (queue (Clients s')) <> (1 * (2 + 1))%nat.
Proof. vm_compute. repeat split. discriminate. Qed.

(** C9, counterexample: a token of exactly ten bytes that the remote
    service rejects is written to the log in full; and of two tokens with
    the same first ten bytes, one that validates leaves no log line while
    the other leaves a warning. *)
Lemma ten_byte_token_logged_in_full :
  let t := "0123456789"%string in
  let s := new_session "" 1 [t] in
  log_of (trace (final (InitGitHubClients (env := service_rejects_all) s))) =
  [ {| lvl := WARN; fmt := "Failed to validate token %s[..]: %s";
       args := [AStr t; AErr unauthorized] |};
    fatal_line ] /\
  let t1 := "0123456789abcdef"%string in
  let t2 := "0123456789uvwxyz"%string in
  let e := service_knows t1 unauthorized in
  substring 0 10 t1 = substring 0 10 t2 /\
  log_of (trace (final (InitGitHubClients (env := e)
                          (new_session "" 1 [t1])))) <>
  log_of (trace (final (InitGitHubClients (env := e)
                          (new_session "" 1 [t2])))).
Proof. vm_compute. repeat split. discriminate. Qed.

(** * The theorems at concrete inputs *)

Lemma local_mode_skips_pool_witness :
  let s := new_session "/srv/checkouts" 4 [token_a] in
  s.(Local) <> EmptyString /\
  InitGitHubClients (env := service_rejects_all) s = Ret tt s.
Proof.
  intros s.
  assert (Hl : Local s <> EmptyString) by (vm_compute; discriminate).
  split; [exact Hl|].
  exact (proj1 (local_mode_skips_pool (env := service_rejects_all) s Hl)).
Defined.

Lemma two_by_two_completes (e : Env) :
  completes (env := e) (new_session "" 2 [token_a; token_b]).
Proof.
  split; [vm_compute; discriminate|]. split.
  - constructor; [intros _; vm_compute; lia|].
    constructor; [intros _; vm_compute; lia|constructor].
  - unfold pool_size, chanSize. cbn [GitHubAccessTokens Threads new_session].
    pose proof (length_filter (fun t => accepted t = true) [token_a; token_b]) as Hn.
    unfold accepted_count. cbn [length] in Hn.
    change (rounds 2) with 3%nat. change (wrap64 _) with 6. lia.
Defined.

Lemma fatal_iff_empty_pool_witness :
  let s := new_session "" 2 [token_a; token_b] in
  InitGitHubClients (env := service_rejects_all) s =
  Exit (emit (EvLog fatal_line) (seeded (env := service_rejects_all) s)) /\
  fatal_lines (trace (final (InitGitHubClients (env := service_rejects_all) s)))
  = 1%nat.
Proof.
  intros s.
  apply (proj1 (proj2 (fatal_iff_empty_pool (env := service_rejects_all) s
                         eq_refl (two_by_two_completes _)))).
  vm_compute. reflexivity.
Defined.

Lemma init_pool_size_witness :
  let s := new_session "" 2 [token_a; token_b] in
  let s' := final (InitGitHubClients (env := service_accepts_all) s) in
  exists ready exhausted,
    Clients s' = Some ready /\ ExhaustedClients s' = Some exhausted /\
    length (heap s') = 6%nat /\
    buf ready = [0; 1; 2; 3; 4; 5]%nat /\
    buf exhausted = [].
Proof.
  intros s s'.
  destruct (init_pool_size (env := service_accepts_all) s eq_refl
              ltac:(vm_compute; discriminate) (two_by_two_completes _))
    as (ready & exhausted & Hr & He & Hh & Hb & Hx & _).
  exists ready, exhausted. repeat split; assumption.
Defined.

Lemma init_skips_error_responses_witness :
  let e := service_knows token_b unauthorized in
  let s := new_session "" 2 [token_a; token_b] in
  let s' := final (InitGitHubClients (env := e) s) in
  map Token (wrappers_in s' (Clients s')) = [token_b; token_b; token_b].
Proof.
  intros e s s'.
  exact (proj1 (proj2 (proj2
           (init_skips_error_responses (env := e) s eq_refl
              ltac:(vm_compute; discriminate) (two_by_two_completes _))))).
Defined.

Lemma FreeClient_routes_witness :
  exists s' ready' exhausted',
    FreeClient (env := service_accepts_all) 0 limited = Ret tt s' /\
    heap s' = heap limited /\
    Clients s' = Some ready' /\ ExhaustedClients s' = Some exhausted' /\
    ((wall 3 < wall 2 + 3600 * Second /\
      buf exhausted' = [0%nat] /\ buf ready' = [1%nat]) \/
     (wall 2 + 3600 * Second <= wall 3 /\
      buf ready' = [1; 0]%nat /\ buf exhausted' = [])).
Proof.
  exact (FreeClient_routes (env := service_accepts_all) limited 0
           {| Client := token_a; Token := token_a;
              RateLimitedUntil := wall 2 + 3600 * Second |}
           {| cap := 2; buf := [1%nat] |} {| cap := 2; buf := [] |}
           eq_refl eq_refl eq_refl eq_refl eq_refl).
Defined.

Lemma short_token_panics_witness :
  (String.length "ghp_123" < 10)%nat /\
  exists s',
    InitGitHubClients (env := service_rejects_all)
      (new_session "" 1 [token_a; "ghp_123"%string]) = Panic s'.
Proof.
  assert (Hs : (String.length "ghp_123" < 10)%nat) by (vm_compute; lia).
  split; [exact Hs|].
  apply (proj1 (proj2 (short_token_panics (env := service_rejects_all)
                         "ghp_123" Hs))
           (new_session "" 1 [token_a; "ghp_123"%string])
           [token_a] [] "401 Bad credentials" eq_refl).
  - vm_compute. discriminate.
  - reflexivity.
  - constructor; [intros _; vm_compute; lia|constructor].
  - vm_compute. discriminate.
  - reflexivity.
Defined.

Lemma log_shows_token_prefix_only_witness :
  let s1 := new_session "" 1 ["0123456789abcdef"%string] in
  let s2 := new_session "" 1 ["0123456789uvwxyz"%string] in
  log_of (trace (final (InitGitHubClients (env := service_rejects_all) s1))) =
  log_of (trace (final (InitGitHubClients (env := service_rejects_all) s2))).
Proof.
  intros s1 s2.
  apply (log_shows_token_prefix_only (env := service_rejects_all) s1 s2).
  - unfold session_eqv. cbn.
    repeat split; try reflexivity; repeat constructor; vm_compute; lia.
  - constructor.
Defined.

(** A run of two goroutines on the pool of two handles: the first draws
    handle 0, records a rate limit on it and frees it; the second then
    draws it from the exhausted channel and sleeps. *)
Lemma run_of_two_goroutines :
  rtc (step (env := service_accepts_all))
      (pool_of_two, replicate 2 Idle)
      (final (poll (env := service_accepts_all) false one_exhausted),
       [Idle; Sleeping 0]).
Proof.
  eapply rtc_l.
  { apply (step_poll 0 true (Returned 0%nat) pool_of_two drawn [Idle; Idle]);
      vm_compute; reflexivity. }
  eapply rtc_l.
  { apply (step_limit 0 0%nat (wall 2 + 3600 * Second) drawn limited
             [Holding 0; Idle]); vm_compute; reflexivity. }
  eapply rtc_l.
  { apply (step_free 0 0%nat limited one_exhausted [Holding 0; Idle]);
      vm_compute; reflexivity. }
  eapply rtc_l.
  { apply (step_poll 1 false (Drew 0%nat) one_exhausted
             (final (poll (env := service_accepts_all) false one_exhausted))
             [Idle; Idle]); vm_compute; reflexivity. }
  apply rtc_refl.
Defined.

Lemma handle_conservation_witness :
  let s' := final (poll (env := service_accepts_all) false one_exhausted) in
  let gs := [Idle; Sleeping 0] in
  handles s' gs ≡ₚ [0; 1]%nat /\
  (length (queue (Clients s')) + length (queue (ExhaustedClients s'))
   + length (on_loan gs))%nat = 2%nat.
Proof.
  intros s' gs.
  assert (Hc : completes (env := service_accepts_all)
                 (new_session "" 1 [token_a])).
  { split; [vm_compute; discriminate|]. split.
    - constructor; [intros _; vm_compute; lia|constructor].
    - vm_compute. discriminate. }
  destruct (handle_conservation (env := service_accepts_all)
              (new_session "" 1 [token_a]) pool_of_two s' 2 gs
              eq_refl ltac:(vm_compute; discriminate) Hc eq_refl
              run_of_two_goroutines)
    as (Hperm & _ & Hlen & _).
  split; [exact Hperm|exact Hlen].
Defined.

(** * The CSV output *)

Section CsvProofs.

Context `{os : Os}.

Lemma eqb_nonempty (p : string) : p <> EmptyString -> String.eqb p "" = false.
Proof. intros Hp. apply String.eqb_neq. exact Hp. Qed.

(** X16: with an empty CSV path the output is switched off:
    [InitCsvWriter] opens nothing and sets no writer, and [WriteToCsv]
    returns without touching anything, even while the writer is nil. *)
Theorem csv_disabled_is_noop (o : Output) :
  CSVPath o = EmptyString ->
  InitCsvWriter o = Done o /\
  forall lines, write_all lines o = Done o.
Proof.
  intros Hp. split.
  - unfold InitCsvWriter. rewrite Hp. reflexivity.
  - induction lines as [|line rest IH]; [reflexivity|].
    cbn [write_all]. unfold WriteToCsv. rewrite Hp. cbn. exact IH.
Qed.

Lemma records_at_insert (path : string) (rs : list record)
      (d : gmap string (list record)) :
  records_at path (<[path := rs]> d) = rs.
Proof. unfold records_at. rewrite lookup_insert_eq. reflexivity. Qed.

Lemma InitCsvWriter_opened (o : Output) :
  CSVPath o <> EmptyString ->
  OpenFile (CSVPath o) = None ->
  InitCsvWriter o =
  Done (set_CsvWriter (WriterOn (CSVPath o))
          (set_disk
             (<[CSVPath o :=
                  records_at (CSVPath o) (disk o)
                  ++ (if PathExists (CSVPath o) then [] else [csv_header])]>
                (disk o)) o)).
Proof.
  intros Hp Hopen. unfold InitCsvWriter.
  rewrite (eqb_nonempty _ Hp), Hopen.
  destruct (PathExists (CSVPath o)); cbn [negb].
  - rewrite app_nil_r. reflexivity.
  - unfold WriteToCsv. cbn [CSVPath set_CsvWriter set_disk CsvWriter disk].
    rewrite (eqb_nonempty _ Hp).
    unfold append_record, create, records_at, set_disk, set_CsvWriter. cbn.
    rewrite lookup_insert_eq, insert_insert_eq. reflexivity.
Qed.

(** X17: when the file can be opened, [InitCsvWriter] sets a writer on it
    and writes the header line exactly when [PathExists] answered that the
    file was not there.  The records the file had stay in front, every other
    file is untouched, and no error is logged. *)
Theorem csv_header_iff_new (o : Output) :
  CSVPath o <> EmptyString ->
  OpenFile (CSVPath o) = None ->
  exists o',
    InitCsvWriter o = Done o' /\
    CSVPath o' = CSVPath o /\
    CsvWriter o' = Some (WriterOn (CSVPath o)) /\
    records_at (CSVPath o) (disk o') =
      records_at (CSVPath o) (disk o)
      ++ (if PathExists (CSVPath o) then [] else [csv_header]) /\
    (forall other, other <> CSVPath o -> disk o' !! other = disk o !! other) /\
    errors o' = errors o.
Proof.
  intros Hp Hopen. rewrite (InitCsvWriter_opened o Hp Hopen).
  eexists. split; [reflexivity|]. cbn.
  split; [reflexivity|]. split; [reflexivity|]. split; [|split].
  - unfold records_at at 1. rewrite lookup_insert_eq. reflexivity.
  - intros other Hne. apply lookup_insert_ne. congruence.
  - reflexivity.
Qed.

(** X18: once a writer is set on a file, a sequence of calls of
    [WriteToCsv] never panics and appends its lines to that file in the
    order of the calls, after the records the file had; every other file is
    untouched. *)
Theorem csv_lines_appended_in_order (lines : list record) :
  forall (o : Output) (path : string),
    CSVPath o <> EmptyString ->
    CsvWriter o = Some (WriterOn path) ->
    exists o',
      write_all lines o = Done o' /\
      CSVPath o' = CSVPath o /\
      CsvWriter o' = CsvWriter o /\
      (lines <> [] ->
       disk o' !! path = Some (records_at path (disk o) ++ lines)) /\
      records_at path (disk o') = records_at path (disk o) ++ lines /\
      (forall other, other <> path -> disk o' !! other = disk o !! other).
Proof.
  induction lines as [|line rest IH]; intros o path Hp Hw.
  - exists o. cbn. rewrite app_nil_r. repeat split; auto. congruence.
  - cbn [write_all]. unfold WriteToCsv. rewrite (eqb_nonempty _ Hp), Hw.
    destruct (IH (set_disk (append_record path line (disk o)) o) path Hp Hw)
      as (o' & Hrun & Hpath & Hwr & Hsome & Hrec & Hother).
    exists o'. cbn in *.
    assert (Hnow : records_at path (append_record path line (disk o))
                   = records_at path (disk o) ++ [line]).
    { unfold append_record, records_at at 1. rewrite lookup_insert_eq. reflexivity. }
    rewrite Hnow, <- app_assoc in Hrec. cbn in Hrec.
    split; [exact Hrun|]. split; [exact Hpath|]. split; [congruence|].
    split; [|split; [exact Hrec|]].
    + intros _. destruct rest as [|l rest'].
      * cbn in Hrun. injection Hrun as <-. cbn. unfold append_record.
        rewrite lookup_insert_eq. reflexivity.
      * rewrite (Hsome ltac:(discriminate)), Hnow, <- app_assoc. reflexivity.
    + intros other Hne. rewrite (Hother other Hne). unfold append_record.
      apply lookup_insert_ne. congruence.
Qed.

(** X19: [WriteToCsv] called with a CSV path set while the writer is still
    nil, that is without [InitCsvWriter] before it, dereferences the nil
    writer and panics. *)
Theorem csv_write_before_init_panics (line : record) (o : Output) :
  CSVPath o <> EmptyString ->
  CsvWriter o = None ->
  WriteToCsv line o = Crashed.
Proof.
  intros Hp Hw. unfold WriteToCsv. rewrite (eqb_nonempty _ Hp), Hw. reflexivity.
Qed.

(** X20: when the file cannot be opened, [InitCsvWriter] logs the error
    once and goes on with a writer on the nil file: it neither panics nor
    stops, no file is created or changed, and neither the header nor any
    line written later reaches the disk. *)
Theorem csv_open_failure_loses_lines (o : Output) (err : string) :
  CSVPath o <> EmptyString ->
  OpenFile (CSVPath o) = Some err ->
  exists o',
    InitCsvWriter o = Done o' /\
    CsvWriter o' = Some WriterOnNil /\
    disk o' = disk o /\
    errors o' = errors o ++ [("Could not create/open CSV file: %v"%string, err)] /\
    forall lines, write_all lines o' = Done o'.
Proof.
  intros Hp Hopen. unfold InitCsvWriter. rewrite (eqb_nonempty _ Hp), Hopen.
  set (o1 := set_CsvWriter WriterOnNil
               (Log_Error "Could not create/open CSV file: %v" err o)).
  assert (Hw : forall line, WriteToCsv line o1 = Done o1).
  { intros line. unfold WriteToCsv. cbn. rewrite (eqb_nonempty _ Hp). reflexivity. }
  exists o1. split; [destruct (negb _); [apply Hw|reflexivity]|].
  split; [reflexivity|]. split; [reflexivity|]. split; [reflexivity|].
  induction lines as [|line rest IH]; [reflexivity|].
  cbn [write_all]. rewrite Hw. exact IH.
Qed.

End CsvProofs.

(** X21: the header is written once for a file.  When a first run of
    [InitCsvWriter], for which the file was not there, has created it, a
    later run on the same path, for which [PathExists] answers that the
    file is there, leaves the file as the first run and its writes left
    it. *)
Theorem csv_header_written_once (os1 os2 : Os) (o o1 o2 : Output)
        (lines : list record) :
  CSVPath o <> EmptyString ->
  PathExists (Os := os1) (CSVPath o) = false ->
  OpenFile (Os := os1) (CSVPath o) = None ->
  InitCsvWriter (os := os1) o = Done o1 ->
  write_all lines o1 = Done o2 ->
  PathExists (Os := os2) (CSVPath o) = true ->
  OpenFile (Os := os2) (CSVPath o) = None ->
  records_at (CSVPath o) (disk o2)
    = records_at (CSVPath o) (disk o) ++ csv_header :: lines /\
  exists o3,
    InitCsvWriter (os := os2) o2 = Done o3 /\ disk o3 = disk o2.
Proof.
  intros Hp Hnew Hopen1 Hinit Hwrite Hthere Hopen2.
  rewrite (InitCsvWriter_opened (os := os1) o Hp Hopen1), Hnew in Hinit.
  injection Hinit as <-.
  match type of Hwrite with write_all lines ?o1 = _ =>
    destruct (csv_lines_appended_in_order lines o1 (CSVPath o) Hp eq_refl)
      as (o' & Hrun & Hpath & Hwr & Hsome & Hrec & _)
  end.
  rewrite Hwrite in Hrun. injection Hrun as <-. cbn in Hpath, Hrec.
  split.
  - rewrite Hrec, records_at_insert, <- app_assoc. reflexivity.
  - rewrite <- Hpath in Hp, Hopen2, Hthere.
    rewrite (InitCsvWriter_opened (os := os2) o2 Hp Hopen2), Hthere.
    eexists. split; [reflexivity|]. cbn. rewrite app_nil_r.
    rewrite Hpath. unfold records_at.
    destruct (disk o2 !! CSVPath o) as [rs|] eqn:E.
    + cbn. apply insert_id. exact E.
    + exfalso. destruct lines as [|l ls].
      * cbn in Hwrite. injection Hwrite as <-. cbn in E.
        rewrite lookup_insert_eq in E. discriminate.
      * assert (Hne : l :: ls <> []) by discriminate.
        discriminate (Hsome Hne).
Qed.
